(** * Model download script of the Krita Generative-AI plugin

    A shallow embedding of [scripts/download_models.py]: the URL mapping,
    the per-file download with its temporary file, the retry wrapper, the
    selection of models from the command-line flags, and the batch loop.

    Python values are modelled as follows.
    - [str] is [string]; the [str] methods the script calls ([split],
      [join], [replace]) are written out in [PyStr].
    - [pathlib.Path] is a record of a root flag and the list of components;
      [/], [name], [suffix] and [with_suffix] follow pathlib (module
      [PurePath]).
    - [set[ModelResource]] is a [gset ModelResource]; [os.environ] is a
      [gmap string string].
    - code with effects (file system, HTTP requests, [print], exceptions)
      runs in the state-and-exception monad [M] over the record [World]. *)

From Stdlib Require Import String Ascii ZArith Lia List Sorted.
From stdpp Require Import base decidable option list strings gmap sets.

Local Open Scope string_scope.
Local Open Scope list_scope.
Local Open Scope nat_scope.

(** ** Python [str] methods *)

Module PyStr.

(** [s.split(sep)] for a separator of one character: the pieces between
    the separators, empty pieces included; never the empty list. *)
Fixpoint split (sep : ascii) (s : string) : list string :=
  match s with
  | EmptyString => [EmptyString]
  | String c s' =>
      if Ascii.eqb c sep then EmptyString :: split sep s'
      else match split sep s' with
           | h :: t => String c h :: t
           | [] => [String c EmptyString]
           end
  end.

(** [sep.join(l)] *)
Fixpoint join (sep : string) (l : list string) : string :=
  match l with
  | [] => EmptyString
  | x :: l' =>
      match l' with
      | [] => x
      | _ :: _ => x +:+ sep +:+ join sep l'
      end
  end.

(** [s.startswith(p)] *)
Fixpoint startswith (p s : string) : bool :=
  match p, s with
  | EmptyString, _ => true
  | String a p', String b s' => Ascii.eqb a b && startswith p' s'
  | String _ _, EmptyString => false
  end.

(** [old in s] *)
Fixpoint occurs (old s : string) : bool :=
  startswith old s
  || match s with
     | EmptyString => false
     | String _ s' => occurs old s'
     end.

(** The scan of [s.replace(old, new)] for a non-empty [old]: left to
    right, each match replaced and jumped over ([skip] counts the
    characters of a match still to be jumped). *)
Fixpoint replace_scan (old new : string) (skip : nat) (s : string) : string :=
  match s with
  | EmptyString => EmptyString
  | String c s' =>
      match skip with
      | S k => replace_scan old new k s'
      | O =>
          if startswith old s
          then new +:+ replace_scan old new (String.length old - 1) s'
          else String c (replace_scan old new 0 s')
      end
  end.

(** [s.replace("", new)]: [new] before every character and at the end. *)
Fixpoint intersperse (new : string) (s : string) : string :=
  match s with
  | EmptyString => new
  | String c s' => new +:+ String c (intersperse new s')
  end.

(** [s.replace(old, new)]: every occurrence, no count given. *)
Definition replace (s old new : string) : string :=
  match old with
  | EmptyString => intersperse new s
  | String _ _ => replace_scan old new 0 s
  end.

(** [s.rfind(c)] for one character; [None] stands for [-1]. *)
Fixpoint rfind (c : ascii) (s : string) : option nat :=
  match s with
  | EmptyString => None
  | String a s' =>
      match rfind c s' with
      | Some i => Some (S i)
      | None => if Ascii.eqb a c then Some 0 else None
      end
  end.

End PyStr.

(** ** Exceptions

    Every exception the script can meet is an [Exception] (so the
    [except Exception] of the retry wrapper catches each of them). *)

Inductive Exn : Type :=
| ValueError (msg : string)
| AssertionError (msg : string)
| IndexError (msg : string)
| OSError (kind : string) (path : list string)
| ClientError (msg : string)
| ClientResponseError (status : nat)
| RuntimeError (model_name : string) (retry_attempts : Z).

#[global] Instance Exn_eq_dec : EqDecision Exn.
Proof. solve_decision. Defined.

(** The result of a call: returned normally or raised. *)
Inductive Outcome (A : Type) : Type :=
| Ok (a : A)
| Raise (e : Exn).

Arguments Ok {A} a.
Arguments Raise {A} e.

(** ** [pathlib] paths *)

Module PurePath.

Record t : Type := mk { root : bool; parts : list string }.

#[global] Instance eq_dec : EqDecision t.
Proof. solve_decision. Defined.

#[global] Instance countable : Countable t :=
  inj_countable' (λ p, (root p, parts p)) (λ x, mk x.1 x.2)
    (λ p, match p with mk _ _ => eq_refl end).

(** [p / q]: an absolute right operand replaces the left one. *)
Definition joinpath (p q : t) : t :=
  if root q then q else mk (root p) (parts p ++ parts q).

(** [p.name]: the last component, or [""] when there is none. *)
Definition name (p : t) : string := default EmptyString (last (parts p)).

(** [p.parent]: the path without its last component. *)
Definition parent (p : t) : t := mk (root p) (removelast (parts p)).

(** [p.suffix] computed on the name: the part from the last dot on, when
    that dot is neither the first nor the last character. *)
Definition suffix_of (nm : string) : string :=
  match PyStr.rfind "."%char nm with
  | Some i =>
      if (0 <? i)%nat && (i <? String.length nm - 1)%nat
      then String.substring i (String.length nm - i) nm
      else EmptyString
  | None => EmptyString
  end.

Definition suffix (p : t) : string := suffix_of (name p).

(** The new name of [with_suffix]: [name + suffix] when the name has no
    suffix, [name[:-len(old_suffix)] + suffix] otherwise. *)
Definition rename_suffix (nm sfx : string) : string :=
  let old_suffix := suffix_of nm in
  match old_suffix with
  | EmptyString => nm +:+ sfx
  | String _ _ =>
      String.substring 0 (String.length nm - String.length old_suffix) nm +:+ sfx
  end.

(** [p.with_suffix(sfx)], with its three [ValueError]s. *)
Definition with_suffix (p : t) (sfx : string) : Outcome t :=
  if PyStr.occurs "/" sfx then Raise (ValueError "Invalid suffix")
  else if (negb (bool_decide (sfx = EmptyString)) && negb (PyStr.startswith "." sfx))
          || bool_decide (sfx = ".")
  then Raise (ValueError "Invalid suffix")
  else if bool_decide (name p = EmptyString) then Raise (ValueError "has an empty name")
  else Ok (mk (root p) (removelast (parts p) ++ [rename_suffix (name p) sfx])).

End PurePath.

Abbreviation Path := PurePath.t.
Infix "</>" := PurePath.joinpath (at level 40, left associativity).

(** ** The URL mapping *)

Definition ENV_DOWNLOAD_URL : string := "AI_DIFFUSION_DOWNLOAD_URL".

(** ["/".join(url.split("/")[:3])] *)
Definition url_origin (url : string) : string :=
  PyStr.join "/" (take 3 (PyStr.split "/"%char url)).

(** The walrus test [if replace_host := os.environ.get(...)] is false for a
    missing variable and for an empty one. *)
Definition _map_url (environ : gmap string string) (url : string) : string :=
  match environ !! ENV_DOWNLOAD_URL with
  | Some replace_host =>
      if bool_decide (replace_host = EmptyString) then url
      else PyStr.replace url (url_origin url) replace_host
  | None => url
  end.

Definition env_with (host : string) : gmap string string :=
  {[ ENV_DOWNLOAD_URL := host ]}.

(** ** The model catalog ([ai_diffusion.resources])

    The script imports the catalog; only the attributes it reads are
    modelled. *)

(** Modelled from the spec: the enumeration [Arch] of architecture tags
    (the module [ai_diffusion.resources] is not part of the sources); the
    members are the ones the script names, [all] being the wildcard. *)
Module Arch.
Inductive t : Type := all | sd15 | sdxl | flux | illu | illu_v.
#[global] Instance eq_dec : EqDecision t.
Proof. solve_decision. Defined.
End Arch.

(** Modelled from the spec: the enumeration [ResourceKind] (checkpoint,
    upscaler, controlnet, ip-adapter, clip-vision, other). *)
Module ResourceKind.
Inductive t : Type := checkpoint | upscaler | controlnet | ip_adapter | clip_vision | other.
#[global] Instance eq_dec : EqDecision t.
Proof. solve_decision. Defined.
End ResourceKind.

(** Modelled from the spec: a file of a model, a remote URL and a
    destination path relative to the destination root. *)
Record ModelFile : Type := { path : Path; url : string }.

(** Modelled from the spec: the id of a resource, read by the script as
    [m.id.identifier] (checkpoint names) and [m.id.string] (exclusion). *)
Record ResourceId : Type := { identifier : string; id_string : string }.

(** Modelled from the spec: a catalog entry with its display name, id,
    architecture tag, resource kind and ordered files.  Membership in a
    Python set goes by the entry's equality; here an entry is the record
    itself. *)
Record ModelResource : Type := {
  name : string;
  id : ResourceId;
  arch : Arch.t;
  kind : ResourceKind.t;
  files : list ModelFile
}.

#[global] Instance ModelFile_eq_dec : EqDecision ModelFile.
Proof. solve_decision. Defined.
#[global] Instance ResourceId_eq_dec : EqDecision ResourceId.
Proof. solve_decision. Defined.
#[global] Instance ModelResource_eq_dec : EqDecision ModelResource.
Proof. solve_decision. Defined.

Definition arch_code (a : Arch.t) : nat :=
  match a with
  | Arch.all => 0 | Arch.sd15 => 1 | Arch.sdxl => 2
  | Arch.flux => 3 | Arch.illu => 4 | Arch.illu_v => 5
  end.

Definition arch_of_code (n : nat) : Arch.t :=
  match n with
  | 0 => Arch.all | 1 => Arch.sd15 | 2 => Arch.sdxl
  | 3 => Arch.flux | 4 => Arch.illu | _ => Arch.illu_v
  end.

Definition kind_code (k : ResourceKind.t) : nat :=
  match k with
  | ResourceKind.checkpoint => 0 | ResourceKind.upscaler => 1
  | ResourceKind.controlnet => 2 | ResourceKind.ip_adapter => 3
  | ResourceKind.clip_vision => 4 | ResourceKind.other => 5
  end.

Definition kind_of_code (n : nat) : ResourceKind.t :=
  match n with
  | 0 => ResourceKind.checkpoint | 1 => ResourceKind.upscaler
  | 2 => ResourceKind.controlnet | 3 => ResourceKind.ip_adapter
  | 4 => ResourceKind.clip_vision | _ => ResourceKind.other
  end.

#[global] Instance Arch_countable : Countable Arch.t :=
  inj_countable' arch_code arch_of_code
    (λ a, match a with
          | Arch.all | Arch.sd15 | Arch.sdxl | Arch.flux | Arch.illu | Arch.illu_v => eq_refl
          end).

#[global] Instance ResourceKind_countable : Countable ResourceKind.t :=
  inj_countable' kind_code kind_of_code
    (λ k, match k with
          | ResourceKind.checkpoint | ResourceKind.upscaler | ResourceKind.controlnet
          | ResourceKind.ip_adapter | ResourceKind.clip_vision | ResourceKind.other => eq_refl
          end).

#[global] Instance ModelFile_countable : Countable ModelFile :=
  inj_countable' (λ f, (path f, url f)) (λ x, {| path := x.1; url := x.2 |})
    (λ f, match f with Build_ModelFile _ _ => eq_refl end).

#[global] Instance ResourceId_countable : Countable ResourceId :=
  inj_countable' (λ i, (identifier i, id_string i))
    (λ x, {| identifier := x.1; id_string := x.2 |})
    (λ i, match i with Build_ResourceId _ _ => eq_refl end).

#[global] Instance ModelResource_countable : Countable ModelResource :=
  inj_countable' (λ m, (name m, id m, arch m, kind m, files m))
    (λ x, {| name := x.1.1.1.1; id := x.1.1.1.2; arch := x.1.1.2;
             kind := x.1.2; files := x.2 |})
    (λ m, match m with Build_ModelResource _ _ _ _ _ => eq_refl end).

(** Modelled from the spec: the groupings the catalog exposes, and its
    version string. *)
Record Catalog : Type := {
  version : string;
  default_checkpoints : list ModelResource;
  required_models : list ModelResource;
  optional_models : list ModelResource;
  upscale_models : list ModelResource;
  prefetch_models : list ModelResource;
  deprecated_models : list ModelResource
}.

(** ** The selection of models (the first part of [main]) *)

(** The keyword arguments of [main]. *)
Record Options : Type := {
  verbose : bool;
  dry_run : bool;
  sd15 : bool;
  sdxl : bool;
  flux : bool;
  illu : bool;
  upscalers : bool;
  checkpoints : list string;
  controlnet : bool;
  prefetch : bool;
  deprecated : bool;
  minimal : bool;
  recommended : bool;
  all : bool;
  exclude : list string;
  retry_attempts : Z;
  continue_on_error : bool
}.

(** [sum([minimal, recommended, all])] *)
Definition preset_count (o : Options) : nat :=
  Nat.b2n (minimal o) + Nat.b2n (recommended o) + Nat.b2n (all o).

(** The list [versions] after the four [if]s. *)
Definition versions_of (o : Options) : list Arch.t :=
  [Arch.all]
  ++ (if sd15 o || minimal o || all o then [Arch.sd15] else [])
  ++ (if sdxl o || recommended o || all o then [Arch.sdxl] else [])
  ++ (if flux o then [Arch.flux] else [])
  ++ (if illu o || all o then [Arch.illu; Arch.illu_v] else []).

(** [models.update(l)] *)
Definition update (models : gset ModelResource) (l : list ModelResource)
  : gset ModelResource :=
  models ∪ list_to_set l.

(** The three kinds of the [controlnet] category. *)
Definition kinds : list ResourceKind.t :=
  [ResourceKind.controlnet; ResourceKind.ip_adapter; ResourceKind.clip_vision].

(** [models.add(default_checkpoints[0])], an [IndexError] on an empty
    list. *)
Definition add_first_checkpoint (cat : Catalog) (models : gset ModelResource)
  : Outcome (gset ModelResource) :=
  match default_checkpoints cat with
  | [] => Raise (IndexError "list index out of range")
  | m0 :: _ => Ok ({[ m0 ]} ∪ models)
  end.

(** The statements of [main] from [models = set()] up to the exclusion,
    after the [minimal] step. *)
Definition select_rest (cat : Catalog) (o : Options) (versions : list Arch.t)
    (models : gset ModelResource) : gset ModelResource :=
  let models :=
    if recommended o
    then update models (filter (λ m, arch m = Arch.sdxl) (default_checkpoints cat))
    else models in
  let models :=
    if upscalers o || recommended o || all o
    then update
           (update models
              (filter (λ m, kind m = ResourceKind.upscaler) (required_models cat)))
           (upscale_models cat)
    else models in
  let models :=
    if controlnet o || recommended o || all o
    then update models
           (filter (λ m, kind m ∈ kinds ∧ arch m ∈ versions) (optional_models cat))
    else models in
  let models :=
    if prefetch o || all o then update models (prefetch_models cat) else models in
  let models :=
    if deprecated o
    then update models (filter (λ m, arch m ∈ versions) (deprecated_models cat))
    else models in
  models ∖ list_to_set (filter (λ m, id_string (id m) ∈ exclude o) (elements models)).

Definition select_models (cat : Catalog) (o : Options)
  : Outcome (gset ModelResource) :=
  let versions := versions_of o in
  let models : gset ModelResource := ∅ in
  let models :=
    update models
      (filter (λ m, all o = true ∨ identifier (id m) ∈ checkpoints o)
         (default_checkpoints cat)) in
  let models :=
    if minimal o || recommended o || all o || sd15 o || sdxl o
    then update models (filter (λ m, arch m ∈ versions) (required_models cat))
    else models in
  match (if minimal o then add_first_checkpoint cat models else Ok models) with
  | Raise e => Raise e
  | Ok models => Ok (select_rest cat o versions models)
  end.

(** The selection as [main] computes it: the assertion on the presets
    first, then the unions and the exclusion. *)
Definition selection (cat : Catalog) (o : Options) : Outcome (gset ModelResource) :=
  if (preset_count o <=? 1)%nat then select_models cat o
  else Raise (AssertionError "Only one of --minimal, --recommended, --all can be specified").

(** ** Command line ([__main__]) *)

Module Args.
Record t : Type := {
  destination : Path;
  verbose : bool;
  dry_run : bool;
  minimal : bool;
  recommended : bool;
  all : bool;
  sd15 : bool;
  sdxl : bool;
  illu : bool;
  flux : bool;
  checkpoints : bool;
  controlnet : bool;
  checkpoint_list : option (list string);
  upscalers : bool;
  prefetch : bool;
  deprecated : bool;
  retry_attempts : Z;
  continue_on_error : bool
}.
End Args.

(** [[m.id.identifier for m in default_checkpoints if m.arch is a]] *)
Definition checkpoint_ids (cat : Catalog) (a : Arch.t) : list string :=
  map (λ m, identifier (id m)) (filter (λ m, arch m = a) (default_checkpoints cat)).

(** The list [checkpoints] built from the arguments. *)
Definition cli_checkpoints (cat : Catalog) (args : Args.t) : list string :=
  let checkpoints := default [] (Args.checkpoint_list args) in
  let checkpoints :=
    if Args.checkpoints args && Args.sd15 args
    then checkpoints ++ checkpoint_ids cat Arch.sd15 else checkpoints in
  let checkpoints :=
    if Args.checkpoints args && Args.sdxl args
    then checkpoints ++ checkpoint_ids cat Arch.sdxl else checkpoints in
  let checkpoints :=
    if Args.checkpoints args && Args.flux args
    then checkpoints ++ checkpoint_ids cat Arch.flux else checkpoints in
  let checkpoints :=
    if Args.checkpoints args && Args.illu args
    then (checkpoints ++ checkpoint_ids cat Arch.illu) ++ checkpoint_ids cat Arch.illu_v
    else checkpoints in
  checkpoints.

(** The keyword arguments [__main__] passes to [main]; [exclude] is not
    passed and keeps its default. *)
Definition cli_options (cat : Catalog) (args : Args.t) : Options := {|
  verbose := Args.verbose args;
  dry_run := Args.dry_run args;
  sd15 := Args.sd15 args;
  sdxl := Args.sdxl args;
  flux := Args.flux args;
  illu := Args.illu args;
  upscalers := Args.upscalers args;
  checkpoints := cli_checkpoints cat args;
  controlnet := Args.controlnet args;
  prefetch := Args.prefetch args;
  deprecated := Args.deprecated args;
  minimal := Args.minimal args;
  recommended := Args.recommended args;
  all := Args.all args;
  exclude := [];
  retry_attempts := Args.retry_attempts args;
  continue_on_error := Args.continue_on_error args
|}.

(** ** The world: file system, network, console *)

(** What is at a path: a directory or a file with its bytes. *)
Inductive Node : Type :=
| Dir
| File (content : string).

(** The lines [print] writes. *)
Inductive Line : Type :=
| Banner (version : string)
| LookingFor (target_file : Path)
| FoundSkipping (model_name : string)
| Downloading (url : string)
| ErrorDownloading (model_name : string) (attempt : nat) (e : Exn)
| NoModelsSelected
| ModelHeader (model_name : string).

(** An HTTP response: the status, the advertised length, the chunks
    [iter_chunks] yields, and the exception (if any) it raises after them. *)
Record Response : Type := {
  status : nat;
  content_length : option nat;
  chunks : list string;
  stream_error : option Exn
}.

(** [requests] lists the URLs requested so far, oldest first; [stdout] the
    printed lines, oldest first. *)
Record World : Type := {
  fs : gmap Path Node;
  requests : list string;
  stdout : list Line
}.

Definition with_fs (w : World) (f : gmap Path Node) : World :=
  {| fs := f; requests := requests w; stdout := stdout w |}.

(** The world after a request of [url]. *)
Definition requested (w : World) (url : string) : World :=
  {| fs := fs w; requests := requests w ++ [url]; stdout := stdout w |}.

(** State and exceptions. *)
Definition M (A : Type) : Type := World → World * Outcome A.

#[global] Instance M_ret : MRet M := λ A a w, (w, Ok a).

#[global] Instance M_bind : MBind M := λ A B f m w,
  match m w with
  | (w', Ok a) => f a w'
  | (w', Raise e) => (w', Raise e)
  end.

Definition raise {A : Type} (e : Exn) : M A := λ w, (w, Raise e).

Definition lift {A : Type} (o : Outcome A) : M A := λ w, (w, o).

(** [try: body / except Exception as e: handler e / else: on_ok] *)
Definition try_except {A B : Type} (body : M A) (on_ok : A → M B)
    (handler : Exn → M B) : M B := λ w,
  match body w with
  | (w', Ok a) => on_ok a w'
  | (w', Raise e) => handler e w'
  end.

(** The world after [print]ing a line. *)
Definition printed (w : World) (l : Line) : World :=
  {| fs := fs w; requests := requests w; stdout := stdout w ++ [l] |}.

Definition print (l : Line) : M unit := λ w, (printed w l, Ok tt).

Definition when (b : bool) (m : M unit) : M unit :=
  if b then m else mret tt.

(** [for x in l: body x] *)
Fixpoint for_each {A : Type} (body : A → M unit) (l : list A) : M unit :=
  match l with
  | [] => mret tt
  | x :: l' => body x ;; for_each body l'
  end.

(** [p.exists()] *)
Definition path_exists (p : Path) : M bool := λ w,
  (w, Ok (bool_decide (is_Some (fs w !! p)))).

(** The directories [mkdir(parents=True)] walks through: [p] and its
    ancestors below the anchor. *)
Definition ancestors_and_self (p : Path) : list Path :=
  map (λ k, PurePath.mk (PurePath.root p) (take k (PurePath.parts p)))
      (seq 1 (length (PurePath.parts p))).

Definition is_file (n : option Node) : bool :=
  match n with
  | Some (File _) => true
  | _ => false
  end.

(** The file system with [p] and its ancestors as directories. *)
Definition made_dirs (p : Path) (f : gmap Path Node) : gmap Path Node :=
  foldr (λ d m, <[d := Dir]> m) f (ancestors_and_self p).

(** [p.mkdir(exist_ok=True, parents=True)]: an error when [p] or an
    ancestor is a file, otherwise every missing directory is created. *)
Definition mkdir_parents (p : Path) : M unit := λ w,
  if existsb (λ d, is_file (fs w !! d)) (ancestors_and_self p)
  then (w, Raise (OSError "FileExistsError" (PurePath.parts p)))
  else (with_fs w (made_dirs p (fs w)), Ok tt).

(** [open(p, "wb")]: the file is created or truncated. *)
Definition open_wb (p : Path) : M unit := λ w,
  match fs w !! p with
  | Some Dir => (w, Raise (OSError "IsADirectoryError" (PurePath.parts p)))
  | _ => (with_fs w (<[p := File EmptyString]> (fs w)), Ok tt)
  end.

(** [fd.write(chunk)] on the file opened at [p]. *)
Definition write (p : Path) (chunk : string) : M unit := λ w,
  match fs w !! p with
  | Some (File content) => (with_fs w (<[p := File (content +:+ chunk)]> (fs w)), Ok tt)
  | _ => (w, Ok tt)
  end.

(** [src.rename(dst)] (POSIX): [dst] is replaced unless it is a directory;
    renaming a file to itself does nothing. *)
Definition rename (src dst : Path) : M unit := λ w,
  match fs w !! src with
  | None => (w, Raise (OSError "FileNotFoundError" (PurePath.parts src)))
  | Some n =>
      if bool_decide (src = dst) then (w, Ok tt)
      else match fs w !! dst with
           | Some Dir => (w, Raise (OSError "IsADirectoryError" (PurePath.parts dst)))
           | _ => (with_fs w (<[dst := n]> (delete src (fs w))), Ok tt)
           end
  end.

(** [resp.raise_for_status()] *)
Definition raise_for_status (resp : Response) : M unit :=
  if (400 <=? status resp)%nat then raise (ClientResponseError (status resp))
  else mret tt.

(** The body of [async for chunk, is_end in resp.content.iter_chunks()]
    writing to the file at [part]; the progress bar only draws. *)
Definition stream_body (part : Path) (resp : Response) : M unit :=
  for_each (λ chunk, write part chunk) (chunks resp) ;;
  match stream_error resp with
  | Some e => raise e
  | None => mret tt
  end.

(** ** The fetch engine *)

Section Fetch.

(** [os.environ], and the remote side: what a GET of a URL answers, given
    the URLs requested before it (a raised exception stands for a failed
    connection). *)
Variable environ : gmap string string.
Variable server : list string → string → Outcome Response.

(** [client.get(url)]: the request is issued, then answered. *)
Definition client_get (url : string) : M Response := λ w,
  (requested w url, server (requests w) url).

(** The body of the loop [for file in model.files] of [download]. *)
Definition download_file (model : ModelResource) (destination : Path)
    (verbose dry_run : bool) (file : ModelFile) : M unit :=
  let target_file := destination </> path file in
  let url := _map_url environ (url file) in
  when verbose (print (LookingFor target_file)) ;;
  found ← path_exists target_file;
  if found : bool then print (FoundSkipping (name model))
  else
    when verbose (print (Downloading url)) ;;
    mkdir_parents (PurePath.parent target_file) ;;
    if dry_run then mret tt
    else
      resp ← client_get url;
      raise_for_status resp ;;
      part ← lift (PurePath.with_suffix target_file ".part");
      open_wb part ;;
      stream_body part resp ;;
      part' ← lift (PurePath.with_suffix target_file ".part");
      rename part' target_file.

Definition download (model : ModelResource) (destination : Path)
    (verbose dry_run : bool) : M unit :=
  for_each (download_file model destination verbose dry_run) (files model).

(** The loop [for attempt in range(retry_attempts)] with its [else]
    clause, over the attempts still to come. *)
Fixpoint retry_loop (model : ModelResource) (destination : Path)
    (verbose dry_run : bool) (retry_attempts : Z) (continue_on_error : bool)
    (attempts : list nat) : M unit :=
  match attempts with
  | [] =>
      if negb continue_on_error
      then raise (RuntimeError (name model) retry_attempts)
      else mret tt
  | attempt :: attempts' =>
      try_except (download model destination verbose dry_run)
        (λ _, mret tt)
        (λ e,
           print (ErrorDownloading (name model) attempt e) ;;
           if negb continue_on_error then raise e
           else retry_loop model destination verbose dry_run retry_attempts
                  continue_on_error attempts')
  end.

Definition download_with_retry (model : ModelResource) (destination : Path)
    (verbose dry_run : bool) (retry_attempts : Z) (continue_on_error : bool)
  : M unit :=
  retry_loop model destination verbose dry_run retry_attempts continue_on_error
    (seq 0 (Z.to_nat retry_attempts)).

(** [sorted(models, key=lambda m: m.name)]: a stable insertion sort of the
    elements of the set. *)
Fixpoint insert_by_name (m : ModelResource) (l : list ModelResource)
  : list ModelResource :=
  match l with
  | [] => [m]
  | x :: l' =>
      if String.leb (name m) (name x) then m :: l else x :: insert_by_name m l'
  end.

Definition sorted_by_name (models : gset ModelResource) : list ModelResource :=
  foldr insert_by_name [] (elements models).

(** The loop of [main] over the selected models. *)
Definition fetch_all (models : gset ModelResource) (destination : Path)
    (verbose dry_run : bool) (retry_attempts : Z) (continue_on_error : bool)
  : M unit :=
  for_each
    (λ model,
       when verbose (print (ModelHeader (name model))) ;;
       download_with_retry model destination verbose dry_run retry_attempts
         continue_on_error)
    (sorted_by_name models).

Definition main (cat : Catalog) (destination : Path) (o : Options) : M unit :=
  print (Banner (version cat)) ;;
  let verbose := verbose o || dry_run o in
  models ← lift (selection cat o);
  when (bool_decide (size models = 0)) (print NoModelsSelected) ;;
  fetch_all models destination verbose (dry_run o) (retry_attempts o)
    (continue_on_error o).

(** [asyncio.run(main(...))] with the parsed arguments. *)
Definition cli_main (cat : Catalog) (args : Args.t) : M unit :=
  main cat (Args.destination args) (cli_options cat args).

End Fetch.

(** ** Auxiliary notions used to state the properties *)

(** The tail of a URL behind its origin: nothing, or a path from its
    slash on. *)
Definition path_like (tail : string) : bool :=
  match tail with
  | EmptyString => true
  | String c _ => Ascii.eqb c "/"
  end.

(** The path [with_suffix(".part")] yields for a path with a name. *)
Definition part_path (p : Path) : Path :=
  PurePath.mk (PurePath.root p)
    (removelast (PurePath.parts p) ++ [PurePath.rename_suffix (PurePath.name p) ".part"]).

(** The bytes of a body received in chunks. *)
Definition body_of (chunks : list string) : string :=
  foldr String.append EmptyString chunks.

(** What holds of the final world and the outcome of running [m] in [w]. *)
Definition wp {A : Type} (m : M A) (w : World) (Q : World → Outcome A → Prop) : Prop :=
  Q (m w).1 (m w).2.


(** The runs of the loop body of [download] on one file, by the point at
    which they end: what the file system and the request log are
    afterwards, for the target [t], its temporary path [p] and the mapped
    URL [u]. *)
Inductive file_run (server : list string → string → Outcome Response)
    (t p : Path) (u : string) (dry_run : bool) (w w' : World)
  : Outcome unit → Prop :=
| run_skipped :
    is_Some (fs w !! t) →
    fs w' = fs w → requests w' = requests w →
    file_run server t p u dry_run w w' (Ok tt)
| run_mkdir_failed e :
    fs w !! t = None →
    fs w' = fs w → requests w' = requests w →
    file_run server t p u dry_run w w' (Raise e)
| run_dry :
    fs w !! t = None → dry_run = true →
    fs w' = made_dirs (PurePath.parent t) (fs w) → requests w' = requests w →
    file_run server t p u dry_run w w' (Ok tt)
| run_get_failed e :
    fs w !! t = None → dry_run = false →
    server (requests w) u = Raise e →
    fs w' = made_dirs (PurePath.parent t) (fs w) → requests w' = requests w ++ [u] →
    file_run server t p u dry_run w w' (Raise e)
| run_bad_status resp :
    fs w !! t = None → dry_run = false →
    server (requests w) u = Ok resp → (400 ≤ status resp)%nat →
    fs w' = made_dirs (PurePath.parent t) (fs w) → requests w' = requests w ++ [u] →
    file_run server t p u dry_run w w' (Raise (ClientResponseError (status resp)))
| run_no_name resp e :
    fs w !! t = None → dry_run = false →
    server (requests w) u = Ok resp → (status resp < 400)%nat →
    PurePath.name t = EmptyString →
    fs w' = made_dirs (PurePath.parent t) (fs w) → requests w' = requests w ++ [u] →
    file_run server t p u dry_run w w' (Raise e)
| run_open_failed resp e :
    fs w !! t = None → dry_run = false →
    server (requests w) u = Ok resp → (status resp < 400)%nat →
    PurePath.name t ≠ EmptyString →
    fs w' = made_dirs (PurePath.parent t) (fs w) → requests w' = requests w ++ [u] →
    file_run server t p u dry_run w w' (Raise e)
| run_stream_failed resp e :
    fs w !! t = None → dry_run = false →
    server (requests w) u = Ok resp → (status resp < 400)%nat →
    PurePath.name t ≠ EmptyString →
    stream_error resp = Some e →
    fs w' = <[p := File (body_of (chunks resp))]> (made_dirs (PurePath.parent t) (fs w)) →
    requests w' = requests w ++ [u] →
    file_run server t p u dry_run w w' (Raise e)
| run_renamed_onto_itself resp :
    fs w !! t = None → dry_run = false →
    server (requests w) u = Ok resp → (status resp < 400)%nat →
    PurePath.name t ≠ EmptyString →
    stream_error resp = None →
    p = t →
    fs w' = <[p := File (body_of (chunks resp))]> (made_dirs (PurePath.parent t) (fs w)) →
    requests w' = requests w ++ [u] →
    file_run server t p u dry_run w w' (Ok tt)
| run_completed resp :
    fs w !! t = None → dry_run = false →
    server (requests w) u = Ok resp → (status resp < 400)%nat →
    PurePath.name t ≠ EmptyString →
    stream_error resp = None →
    p ≠ t →
    fs w' = <[t := File (body_of (chunks resp))]> (delete p (made_dirs (PurePath.parent t) (fs w))) →
    requests w' = requests w ++ [u] →
    file_run server t p u dry_run w w' (Ok tt).


(** [k] attempts in a row at [download], numbered from [a], each ending in
    an exception; the last world has the error lines the retry wrapper
    prints. *)
Inductive failing_attempts (environ : gmap string string)
    (server : list string → string → Outcome Response)
    (model : ModelResource) (destination : Path) (verbose dry_run : bool)
  : nat → nat → World → World → Prop :=
| failing_none a w :
    failing_attempts environ server model destination verbose dry_run a 0 w w
| failing_next a k w w1 e w2 :
    download environ server model destination verbose dry_run w = (w1, Raise e) →
    failing_attempts environ server model destination verbose dry_run (S a) k
      (printed w1 (ErrorDownloading (name model) a e)) w2 →
    failing_attempts environ server model destination verbose dry_run a (S k) w w2.


(** ** Sample data for the examples *)

Definition tmp_models : Path := PurePath.mk true ["tmp"; "models"].

Definition empty_world : World := {| fs := ∅; requests := []; stdout := [] |}.

Definition file_a : ModelFile := {|
  path := PurePath.mk false ["checkpoints"; "a.safetensors"];
  url := "https://huggingface.co/org/a.safetensors"
|}.

Definition model_a : ModelResource := {|
  name := "Model A";
  id := {| identifier := "a"; id_string := "checkpoint-sd15-a" |};
  arch := Arch.sd15;
  kind := ResourceKind.checkpoint;
  files := [file_a]
|}.

(** A file whose name already ends in [.part]. *)
Definition file_p : ModelFile := {|
  path := PurePath.mk false ["checkpoints"; "b.part"];
  url := "https://huggingface.co/org/b.part"
|}.

Definition model_p : ModelResource := {|
  name := "Model P";
  id := {| identifier := "p"; id_string := "checkpoint-sd15-p" |};
  arch := Arch.sd15;
  kind := ResourceKind.checkpoint;
  files := [file_p]
|}.

Definition ok_response : Response := {|
  status := 200; content_length := Some 4; chunks := ["ab"; "cd"]; stream_error := None
|}.

(** A body that breaks off after its first chunk. *)
Definition broken_response : Response := {|
  status := 200; content_length := Some 4; chunks := ["ab"];
  stream_error := Some (ClientError "payload")
|}.

Definition unavailable_response : Response := {|
  status := 503; content_length := None; chunks := []; stream_error := None
|}.

Definition good_server (history : list string) (url : string) : Outcome Response :=
  Ok ok_response.

Definition broken_server (history : list string) (url : string) : Outcome Response :=
  Ok broken_response.

(** A server that answers 503 to the first request and serves every later
    one. *)
Definition flaky_server (history : list string) (url : string) : Outcome Response :=
  match history with
  | [] => Ok unavailable_response
  | _ :: _ => Ok ok_response
  end.

(** A world in which the file of [model_a] is in place. *)
Definition world_a : World := {|
  fs := {[ tmp_models </> path file_a := File "abcd" ]};
  requests := [];
  stdout := []
|}.

(** ** The rules of the selection, as a predicate

    [picked cat o m]: one of the unions of [main] takes [m] (before the
    exclusion). *)

Definition picked_rest (cat : Catalog) (o : Options) (m : ModelResource) : Prop :=
  (recommended o = true ∧ m ∈ default_checkpoints cat ∧ arch m = Arch.sdxl)
  ∨ (upscalers o || recommended o || all o = true
     ∧ ((m ∈ required_models cat ∧ kind m = ResourceKind.upscaler)
        ∨ m ∈ upscale_models cat))
  ∨ (controlnet o || recommended o || all o = true
     ∧ m ∈ optional_models cat ∧ kind m ∈ kinds ∧ arch m ∈ versions_of o)
  ∨ (prefetch o || all o = true ∧ m ∈ prefetch_models cat)
  ∨ (deprecated o = true ∧ m ∈ deprecated_models cat ∧ arch m ∈ versions_of o).

Definition picked (cat : Catalog) (o : Options) (m : ModelResource) : Prop :=
  (m ∈ default_checkpoints cat ∧ (all o = true ∨ identifier (id m) ∈ checkpoints o))
  ∨ (minimal o || recommended o || all o || sd15 o || sdxl o = true
     ∧ m ∈ required_models cat ∧ arch m ∈ versions_of o)
  ∨ (minimal o = true ∧ head (default_checkpoints cat) = Some m)
  ∨ picked_rest cat o m.

(** No flag set, nothing excluded. *)
Definition no_options : Options := {|
  verbose := false; dry_run := false;
  sd15 := false; sdxl := false; flux := false; illu := false;
  upscalers := false; checkpoints := [];
  controlnet := false; prefetch := false; deprecated := false;
  minimal := false; recommended := false; all := false;
  exclude := []; retry_attempts := 5; continue_on_error := false
|}.

(** The preset [all] alone, with an exclusion list. *)
Definition only_all (excluded : list string) : Options := {|
  verbose := false; dry_run := false;
  sd15 := false; sdxl := false; flux := false; illu := false;
  upscalers := false; checkpoints := [];
  controlnet := false; prefetch := false; deprecated := false;
  minimal := false; recommended := false; all := true;
  exclude := excluded; retry_attempts := 5; continue_on_error := false
|}.

(** The preset [minimal] alone. *)
Definition only_minimal (excluded : list string) : Options := {|
  verbose := false; dry_run := false;
  sd15 := false; sdxl := false; flux := false; illu := false;
  upscalers := false; checkpoints := [];
  controlnet := false; prefetch := false; deprecated := false;
  minimal := true; recommended := false; all := false;
  exclude := excluded; retry_attempts := 5; continue_on_error := false
|}.

(** The workloads [--sd15 --flux]. *)
Definition sd15_and_flux : Options := {|
  verbose := false; dry_run := false;
  sd15 := true; sdxl := false; flux := true; illu := false;
  upscalers := false; checkpoints := [];
  controlnet := false; prefetch := false; deprecated := false;
  minimal := false; recommended := false; all := false;
  exclude := []; retry_attempts := 5; continue_on_error := false
|}.

(** A required model of the Flux workload, a required model of the SD 1.5
    workload, and a deprecated model. *)
Definition model_flux : ModelResource := {|
  name := "Flux text encoder";
  id := {| identifier := "t5"; id_string := "text_encoder-flux-t5" |};
  arch := Arch.flux;
  kind := ResourceKind.other;
  files := [{| path := PurePath.mk false ["clip"; "t5.safetensors"];
               url := "https://huggingface.co/org/t5.safetensors" |}]
|}.

Definition model_sd : ModelResource := {|
  name := "SD 1.5 inpaint";
  id := {| identifier := "inpaint"; id_string := "inpaint-sd15-default" |};
  arch := Arch.sd15;
  kind := ResourceKind.other;
  files := [{| path := PurePath.mk false ["inpaint"; "model.safetensors"];
               url := "https://huggingface.co/org/inpaint.safetensors" |}]
|}.

Definition model_old : ModelResource := {|
  name := "Old ControlNet";
  id := {| identifier := "old"; id_string := "controlnet-sd15-old" |};
  arch := Arch.sd15;
  kind := ResourceKind.controlnet;
  files := [{| path := PurePath.mk false ["controlnet"; "old.safetensors"];
               url := "https://huggingface.co/org/old.safetensors" |}]
|}.

Definition sample_catalog : Catalog := {|
  version := "1.0";
  default_checkpoints := [model_a];
  required_models := [model_sd; model_flux];
  optional_models := [];
  upscale_models := [];
  prefetch_models := [];
  deprecated_models := [model_old]
|}.

#[global] Instance picked_rest_dec (cat : Catalog) (o : Options) (m : ModelResource) :
  Decision (picked_rest cat o m).
Proof. unfold picked_rest. apply _. Defined.

#[global] Instance picked_dec (cat : Catalog) (o : Options) (m : ModelResource) :
  Decision (picked cat o m).
Proof. unfold picked. apply _. Defined.

(** The preset [minimal] with no other selecting flag than (possibly)
    [sd15], and no explicit checkpoint. *)
Definition minimal_alone (o : Options) : Prop :=
  minimal o = true ∧ recommended o = false ∧ all o = false
  ∧ sdxl o = false ∧ flux o = false ∧ illu o = false
  ∧ upscalers o = false ∧ controlnet o = false ∧ prefetch o = false
  ∧ deprecated o = false ∧ checkpoints o = [].

(** The arguments with the bulk flag [--checkpoints] set to [b]. *)
Definition with_bulk (b : bool) (args : Args.t) : Args.t := {|
  Args.destination := Args.destination args;
  Args.verbose := Args.verbose args;
  Args.dry_run := Args.dry_run args;
  Args.minimal := Args.minimal args;
  Args.recommended := Args.recommended args;
  Args.all := Args.all args;
  Args.sd15 := Args.sd15 args;
  Args.sdxl := Args.sdxl args;
  Args.illu := Args.illu args;
  Args.flux := Args.flux args;
  Args.checkpoints := b;
  Args.controlnet := Args.controlnet args;
  Args.checkpoint_list := Args.checkpoint_list args;
  Args.upscalers := Args.upscalers args;
  Args.prefetch := Args.prefetch args;
  Args.deprecated := Args.deprecated args;
  Args.retry_attempts := Args.retry_attempts args;
  Args.continue_on_error := Args.continue_on_error args
|}.

(** [download_models.py --upscalers --checkpoints /tmp/models] *)
Definition sample_args : Args.t := {|
  Args.destination := tmp_models;
  Args.verbose := false;
  Args.dry_run := false;
  Args.minimal := false;
  Args.recommended := false;
  Args.all := false;
  Args.sd15 := false;
  Args.sdxl := false;
  Args.illu := false;
  Args.flux := false;
  Args.checkpoints := true;
  Args.controlnet := false;
  Args.checkpoint_list := None;
  Args.upscalers := true;
  Args.prefetch := false;
  Args.deprecated := false;
  Args.retry_attempts := 5;
  Args.continue_on_error := false
|}.

(** ** Further notions for the properties of the whole script *)

(** [f'] is [f] with new directories: every path is as it was, or was
    absent and is now a directory. *)
Definition only_new_dirs (f f' : gmap Path Node) : Prop :=
  ∀ q, f' !! q = f !! q ∨ (f !! q = None ∧ f' !! q = Some Dir).

(** The URLs [download] may request for a model: the mapped URLs of its
    files, in the order of the files. *)
Definition mapped_urls (environ : gmap string string) (model : ModelResource)
  : list string :=
  map (λ f, _map_url environ (url f)) (files model).

(** No flag that selects anything by itself ([flux] and [illu] are left
    open), no explicit checkpoint. *)
Definition selects_nothing (o : Options) : Prop :=
  minimal o = false ∧ recommended o = false ∧ all o = false
  ∧ sd15 o = false ∧ sdxl o = false
  ∧ upscalers o = false ∧ controlnet o = false ∧ prefetch o = false
  ∧ deprecated o = false ∧ checkpoints o = [].

(** The preset [recommended] with no flag that widens it. *)
Definition recommended_alone (o : Options) : Prop :=
  recommended o = true ∧ minimal o = false ∧ all o = false
  ∧ sd15 o = false ∧ flux o = false ∧ illu o = false
  ∧ prefetch o = false ∧ deprecated o = false ∧ checkpoints o = [].

(** The preset [all] together with [flux] and [deprecated]. *)
Definition everything (excluded : list string) : Options := {|
  verbose := false; dry_run := false;
  sd15 := false; sdxl := false; flux := true; illu := false;
  upscalers := false; checkpoints := [];
  controlnet := false; prefetch := false; deprecated := true;
  minimal := false; recommended := false; all := true;
  exclude := excluded; retry_attempts := 5; continue_on_error := false
|}.

(** The workload flag of the command line that stands for an architecture
    tag; [--illu] stands for two. *)
Definition arch_flag (args : Args.t) (a : Arch.t) : bool :=
  match a with
  | Arch.all => false
  | Arch.sd15 => Args.sd15 args
  | Arch.sdxl => Args.sdxl args
  | Arch.flux => Args.flux args
  | Arch.illu | Arch.illu_v => Args.illu args
  end.


(** [download_models.py --checkpoints --sd15 /tmp/models] *)
Definition sample_args_sd15 : Args.t := {|
  Args.destination := tmp_models;
  Args.verbose := false;
  Args.dry_run := false;
  Args.minimal := false;
  Args.recommended := false;
  Args.all := false;
  Args.sd15 := true;
  Args.sdxl := false;
  Args.illu := false;
  Args.flux := false;
  Args.checkpoints := true;
  Args.controlnet := false;
  Args.checkpoint_list := None;
  Args.upscalers := false;
  Args.prefetch := false;
  Args.deprecated := false;
  Args.retry_attempts := 5;
  Args.continue_on_error := false
|}.

(** [--minimal --recommended]: two presets. *)
Definition two_presets : Options := {|
  verbose := false; dry_run := false;
  sd15 := false; sdxl := false; flux := false; illu := false;
  upscalers := false; checkpoints := [];
  controlnet := false; prefetch := false; deprecated := false;
  minimal := true; recommended := true; all := false;
  exclude := []; retry_attempts := 5; continue_on_error := false
|}.

(** [--recommended] alone. *)
Definition only_recommended : Options := {|
  verbose := false; dry_run := false;
  sd15 := false; sdxl := false; flux := false; illu := false;
  upscalers := false; checkpoints := [];
  controlnet := false; prefetch := false; deprecated := false;
  minimal := false; recommended := true; all := false;
  exclude := []; retry_attempts := 5; continue_on_error := false
|}.

(** [--flux] alone. *)
Definition only_flux : Options := {|
  verbose := false; dry_run := false;
  sd15 := false; sdxl := false; flux := true; illu := false;
  upscalers := false; checkpoints := [];
  controlnet := false; prefetch := false; deprecated := false;
  minimal := false; recommended := false; all := false;
  exclude := []; retry_attempts := 5; continue_on_error := false
|}.

(** A world in which the file of [model_sd] is in place. *)
Definition world_sd : World := {|
  fs := {[ PurePath.mk true ["tmp"; "models"; "inpaint"; "model.safetensors"]
           := File "weights" ]};
  requests := [];
  stdout := []
|}.

(** [--minimal --dry-run] *)
Definition minimal_dry : Options := {|
  verbose := false; dry_run := true;
  sd15 := false; sdxl := false; flux := false; illu := false;
  upscalers := false; checkpoints := [];
  controlnet := false; prefetch := false; deprecated := false;
  minimal := true; recommended := false; all := false;
  exclude := []; retry_attempts := 5; continue_on_error := false
|}.

(** [--all --continue-on-error] *)
Definition all_continue : Options := {|
  verbose := false; dry_run := false;
  sd15 := false; sdxl := false; flux := false; illu := false;
  upscalers := false; checkpoints := [];
  controlnet := false; prefetch := false; deprecated := false;
  minimal := false; recommended := false; all := true;
  exclude := []; retry_attempts := 2; continue_on_error := true
|}.

(** ** Further sample data *)

(** A model with the file of [model_a] and a file named [*.part]. *)
Definition model_ap : ModelResource := {|
  name := "Model AP";
  id := {| identifier := "ap"; id_string := "checkpoint-sd15-ap" |};
  arch := Arch.sd15;
  kind := ResourceKind.checkpoint;
  files := [file_a; file_p]
|}.




(** Whether the flags make an architecture tag active, tag by tag. *)
Definition arch_enabled (o : Options) (a : Arch.t) : bool :=
  match a with
  | Arch.all => true
  | Arch.sd15 => sd15 o || minimal o || all o
  | Arch.sdxl => sdxl o || recommended o || all o
  | Arch.flux => flux o
  | Arch.illu | Arch.illu_v => illu o || all o
  end.

(** [--minimal --upscalers --controlnet], the first checkpoint not
    excluded. *)
Definition minimal_and_more : Options := {|
  verbose := false; dry_run := false;
  sd15 := false; sdxl := false; flux := false; illu := false;
  upscalers := true; checkpoints := [];
  controlnet := true; prefetch := false; deprecated := false;
  minimal := true; recommended := false; all := false;
  exclude := ["inpaint-sd15-default"]; retry_attempts := 5; continue_on_error := false
|}.

(** An SDXL checkpoint, an optional ControlNet model for SDXL, an optional
    model of another kind, and an upscale model. *)
Definition model_xl : ModelResource := {|
  name := "SDXL checkpoint";
  id := {| identifier := "xl"; id_string := "checkpoint-sdxl-xl" |};
  arch := Arch.sdxl;
  kind := ResourceKind.checkpoint;
  files := [{| path := PurePath.mk false ["checkpoints"; "xl.safetensors"];
               url := "https://huggingface.co/org/xl.safetensors" |}]
|}.

Definition model_cn : ModelResource := {|
  name := "ControlNet SDXL";
  id := {| identifier := "cn"; id_string := "controlnet-sdxl-cn" |};
  arch := Arch.sdxl;
  kind := ResourceKind.controlnet;
  files := [{| path := PurePath.mk false ["controlnet"; "cn.safetensors"];
               url := "https://huggingface.co/org/cn.safetensors" |}]
|}.

Definition model_ip : ModelResource := {|
  name := "IP adapter SDXL";
  id := {| identifier := "ip"; id_string := "ip_adapter-sdxl-ip" |};
  arch := Arch.sdxl;
  kind := ResourceKind.ip_adapter;
  files := [{| path := PurePath.mk false ["ipadapter"; "ip.safetensors"];
               url := "https://huggingface.co/org/ip.safetensors" |}]
|}.

Definition model_lora : ModelResource := {|
  name := "Lora SDXL";
  id := {| identifier := "lora"; id_string := "lora-sdxl-lora" |};
  arch := Arch.sdxl;
  kind := ResourceKind.other;
  files := [{| path := PurePath.mk false ["loras"; "lora.safetensors"];
               url := "https://huggingface.co/org/lora.safetensors" |}]
|}.

Definition model_up : ModelResource := {|
  name := "Upscaler";
  id := {| identifier := "up"; id_string := "upscaler-all-up" |};
  arch := Arch.all;
  kind := ResourceKind.upscaler;
  files := [{| path := PurePath.mk false ["upscale_models"; "up.pth"];
               url := "https://huggingface.co/org/up.pth" |}]
|}.

Definition full_catalog : Catalog := {|
  version := "1.0";
  default_checkpoints := [model_a; model_xl];
  required_models := [model_sd; model_flux];
  optional_models := [model_cn; model_ip; model_lora; model_old];
  upscale_models := [model_up];
  prefetch_models := [];
  deprecated_models := [model_old]
|}.

(** A world in which a file stands where the directory [/tmp] should
    be. *)
Definition world_blocked_top : World := {|
  fs := {[ PurePath.mk true ["tmp"] := File "not a directory" ]};
  requests := [];
  stdout := []
|}.


(** * Properties *)

(** ** Strings *)

Section StringFacts.

Lemma append_nil (b : string) : EmptyString +:+ b = b.
Proof. reflexivity. Qed.

Lemma append_cons (c : ascii) (a b : string) : String c a +:+ b = String c (a +:+ b).
Proof. reflexivity. Qed.

Lemma append_assoc (a b c : string) : (a +:+ b) +:+ c = a +:+ (b +:+ c).
Proof.
  induction a as [|x a IH]; [reflexivity |].
  rewrite !append_cons. f_equal. exact IH.
Qed.

Lemma append_empty_r (a : string) : a +:+ EmptyString = a.
Proof.
  induction a as [|x a IH]; [reflexivity |].
  rewrite append_cons. f_equal. exact IH.
Qed.

Lemma length_append (a b : string) :
  String.length (a +:+ b) = String.length a + String.length b.
Proof.
  induction a as [|x a IH]; [reflexivity |].
  rewrite append_cons. simpl. f_equal. exact IH.
Qed.

Lemma startswith_append (p s : string) : PyStr.startswith p (p +:+ s) = true.
Proof.
  induction p as [|x p IH]; [reflexivity |].
  rewrite append_cons. simpl. rewrite Ascii.eqb_refl. exact IH.
Qed.

Lemma split_not_nil (sep : ascii) (s : string) : PyStr.split sep s ≠ [].
Proof.
  induction s as [|c s IH]; simpl; [done |].
  destruct (Ascii.eqb c sep); [done |].
  destruct (PyStr.split sep s); done.
Qed.

Lemma occurs_char_cons (sep c : ascii) (a : string) :
  PyStr.occurs (String sep EmptyString) (String c a) = false →
  Ascii.eqb c sep = false ∧ PyStr.occurs (String sep EmptyString) a = false.
Proof.
  simpl. rewrite andb_true_r. intros H. apply orb_false_elim in H as [Hc Ha].
  split; [| exact Ha]. by rewrite Ascii.eqb_sym.
Qed.

(** A piece without the separator, followed by the separator, is the first
    piece of the split. *)
Lemma split_piece (sep : ascii) (a r : string) :
  PyStr.occurs (String sep EmptyString) a = false →
  PyStr.split sep (a +:+ String sep r) = a :: PyStr.split sep r.
Proof.
  induction a as [|c a IH].
  - intros _. rewrite append_nil. simpl. by rewrite Ascii.eqb_refl.
  - intros H. apply occurs_char_cons in H as [Hc Ha].
    rewrite append_cons. simpl. rewrite Hc. by rewrite (IH Ha).
Qed.

Lemma split_last_piece (sep : ascii) (a : string) :
  PyStr.occurs (String sep EmptyString) a = false →
  PyStr.split sep a = [a].
Proof.
  induction a as [|c a IH]; [done |].
  intros H. apply occurs_char_cons in H as [Hc Ha].
  simpl. rewrite Hc. by rewrite (IH Ha).
Qed.

Lemma replace_scan_skip (old new p s : string) :
  PyStr.replace_scan old new (String.length p) (p +:+ s)
  = PyStr.replace_scan old new 0 s.
Proof.
  induction p as [|x p IH]; [reflexivity |].
  rewrite append_cons. simpl. exact IH.
Qed.

(** A match at the head is replaced and the scan goes on behind it. *)
Lemma replace_head (old new s : string) :
  old ≠ EmptyString →
  PyStr.replace (old +:+ s) old new = new +:+ PyStr.replace s old new.
Proof.
  destruct old as [|c old]; [done |]. intros _. unfold PyStr.replace.
  pose proof (startswith_append (String c old) s) as Hp.
  rewrite append_cons in Hp |- *.
  cbn [PyStr.replace_scan]. rewrite Hp.
  cbn [String.length]. rewrite Nat.sub_1_r. cbn [Nat.pred].
  by rewrite replace_scan_skip.
Qed.

(** Nothing is replaced where [old] does not occur. *)
Lemma replace_absent (old new s : string) :
  PyStr.occurs old s = false → PyStr.replace s old new = s.
Proof.
  destruct old as [|c old].
  - destruct s; simpl; discriminate.
  - unfold PyStr.replace. induction s as [|x s IH]; [reflexivity |].
    intros H. cbn [PyStr.occurs] in H. apply orb_false_elim in H as [Hs Ho].
    cbn [PyStr.replace_scan]. rewrite Hs. by rewrite (IH Ho).
Qed.

End StringFacts.

(** ** The URL mapping *)

Lemma url_origin_of_parts (scheme authority tail : string) :
  PyStr.occurs "/" scheme = false →
  PyStr.occurs "/" authority = false →
  path_like tail = true →
  url_origin (scheme +:+ "//" +:+ authority +:+ tail) = scheme +:+ "//" +:+ authority.
Proof.
  intros Hs Ha Ht. unfold url_origin.
  rewrite !append_cons, !append_nil.
  rewrite (split_piece _ _ _ Hs).
  rewrite <- (append_nil (String "/" (authority +:+ tail))).
  rewrite (split_piece "/" EmptyString); [| reflexivity].
  destruct tail as [|c tail].
  - rewrite append_empty_r, (split_last_piece _ _ Ha). reflexivity.
  - simpl in Ht. apply Ascii.eqb_eq in Ht as ->.
    rewrite (split_piece _ _ _ Ha). reflexivity.
Qed.

Lemma map_url_unset (environ : gmap string string) (url : string) :
  environ !! ENV_DOWNLOAD_URL = None ∨ environ !! ENV_DOWNLOAD_URL = Some EmptyString →
  _map_url environ url = url.
Proof. unfold _map_url. intros [-> | ->]; reflexivity. Qed.

(** C9, as amended.  With the variable unset or empty the URL is returned
    as it is.  With a non-empty override, on a URL made of a scheme, [//],
    an authority (host and port) and a tail that is empty or starts at the
    slash of the path, every occurrence of the origin (scheme, [//] and
    authority) is replaced: the result is the override followed by the tail
    with its own occurrences of the origin replaced too, and it is the
    override followed by the unchanged tail when the origin does not occur
    in the tail. *)
Theorem map_url_replaces_origin (environ : gmap string string)
    (scheme authority tail : string) :
  PyStr.occurs "/" scheme = false →
  PyStr.occurs "/" authority = false →
  path_like tail = true →
  match environ !! ENV_DOWNLOAD_URL with
  | None => _map_url environ (scheme +:+ "//" +:+ authority +:+ tail)
            = scheme +:+ "//" +:+ authority +:+ tail
  | Some host =>
      if bool_decide (host = EmptyString)
      then _map_url environ (scheme +:+ "//" +:+ authority +:+ tail)
           = scheme +:+ "//" +:+ authority +:+ tail
      else _map_url environ (scheme +:+ "//" +:+ authority +:+ tail)
           = host +:+ PyStr.replace tail (scheme +:+ "//" +:+ authority) host
           ∧ (PyStr.occurs (scheme +:+ "//" +:+ authority) tail = false →
              _map_url environ (scheme +:+ "//" +:+ authority +:+ tail) = host +:+ tail)
  end.
Proof.
  intros Hs Ha Ht. unfold _map_url.
  destruct (environ !! ENV_DOWNLOAD_URL) as [host|]; [| reflexivity].
  case_bool_decide as Hh; [reflexivity |].
  rewrite (url_origin_of_parts _ _ _ Hs Ha Ht).
  assert (Hurl : scheme +:+ "//" +:+ authority +:+ tail
                 = (scheme +:+ "//" +:+ authority) +:+ tail).
  { by rewrite !append_assoc. }
  assert (Hne : scheme +:+ "//" +:+ authority ≠ EmptyString).
  { destruct scheme; discriminate. }
  rewrite Hurl, (replace_head _ _ _ Hne). split; [reflexivity |].
  intros Habs. by rewrite (replace_absent _ _ _ Habs).
Qed.

Lemma map_url_replaces_origin_witness :
  PyStr.occurs "/" "https:" = false
  ∧ PyStr.occurs "/" "huggingface.co:443" = false
  ∧ path_like "/a/b.safetensors" = true
  ∧ _map_url (env_with "http://mirror:8080") "https://huggingface.co:443/a/b.safetensors"
    = "http://mirror:8080/a/b.safetensors".
Proof.
  split; [reflexivity |]. split; [reflexivity |]. split; [reflexivity |].
  pose proof (map_url_replaces_origin (env_with "http://mirror:8080")
                "https:" "huggingface.co:443" "/a/b.safetensors"
                eq_refl eq_refl eq_refl) as H.
  change (env_with "http://mirror:8080" !! ENV_DOWNLOAD_URL)
    with (Some "http://mirror:8080") in H.
  exact (proj2 H eq_refl).
Defined.

(** C9, counterexample.  The origin occurs a second time in the query of
    the URL: [replace] rewrites that occurrence too, so the part of the URL
    behind the origin is not left unchanged. *)
Lemma map_url_rewrites_beyond_origin :
  _map_url (env_with "http://m") "https://a.co/x?u=https://a.co/y"
  = "http://m/x?u=http://m/y"
  ∧ _map_url (env_with "http://m") "https://a.co/x?u=https://a.co/y"
    ≠ "http://m" +:+ "/x?u=https://a.co/y".
Proof. split; [vm_compute; reflexivity | vm_compute; discriminate]. Qed.

(** ** Paths and the temporary name *)

Section PathFacts.

Lemma rfind_append (c : ascii) (a b : string) :
  PyStr.rfind c (a +:+ b)
  = match PyStr.rfind c b with
    | Some i => Some (String.length a + i)
    | None => PyStr.rfind c a
    end.
Proof.
  induction a as [|x a IH].
  - rewrite append_nil. destruct (PyStr.rfind c b); reflexivity.
  - rewrite append_cons. cbn [PyStr.rfind]. rewrite IH.
    destruct (PyStr.rfind c b); reflexivity.
Qed.

Lemma substring_skip (a b : string) (n : nat) :
  String.substring (String.length a) n (a +:+ b) = String.substring 0 n b.
Proof.
  induction a as [|x a IH]; [reflexivity |].
  rewrite append_cons. exact IH.
Qed.

Lemma substring_length_le (s : string) :
  ∀ n m, String.length (String.substring n m s) ≤ m.
Proof.
  induction s as [|c s IH]; intros n m.
  - destruct n, m; simpl; lia.
  - destruct n as [|n].
    + destruct m as [|m]; simpl; [lia |]. specialize (IH 0 m). lia.
    + simpl. apply IH.
Qed.

(** A name that ends in [.part] behind a non-empty stem has the suffix
    [.part]. *)
Lemma suffix_of_part (stem : string) :
  stem ≠ EmptyString → PurePath.suffix_of (stem +:+ ".part") = ".part".
Proof.
  intros Hne. unfold PurePath.suffix_of.
  rewrite rfind_append. change (PyStr.rfind "." ".part") with (Some 0).
  rewrite length_append, Nat.add_0_r. change (String.length ".part") with 5.
  assert (0 < String.length stem) as Hlen by (destruct stem; [done | simpl; lia]).
  replace (0 <? String.length stem) with true by (symmetry; apply Nat.ltb_lt; lia).
  replace (String.length stem <? String.length stem + 5 - 1) with true
    by (symmetry; apply Nat.ltb_lt; lia).
  cbn [andb].
  replace (String.length stem + 5 - String.length stem) with 5 by lia.
  rewrite substring_skip. reflexivity.
Qed.

(** The temporary name is a non-empty stem followed by [.part]. *)
Lemma rename_suffix_part (nm : string) :
  nm ≠ EmptyString →
  ∃ stem, stem ≠ EmptyString ∧ PurePath.rename_suffix nm ".part" = stem +:+ ".part".
Proof.
  intros Hne. unfold PurePath.rename_suffix.
  destruct (PurePath.suffix_of nm) as [|c old] eqn:Hold.
  - by exists nm.
  - eexists. split; [| reflexivity].
    unfold PurePath.suffix_of in Hold.
    destruct (PyStr.rfind "." nm) as [i|]; [| discriminate].
    destruct ((0 <? i) && (i <? String.length nm - 1)) eqn:Hi; [| discriminate].
    apply andb_true_iff in Hi as [Hi1 Hi2].
    apply Nat.ltb_lt in Hi1, Hi2.
    pose proof (substring_length_le nm i (String.length nm - i)) as Hle.
    rewrite Hold in Hle.
    destruct nm as [|x nm]; [done |].
    destruct (String.length (String x nm) - String.length (String c old)) as [|k] eqn:Hk;
      [lia | discriminate].
Qed.

Lemma suffix_of_rename (nm : string) :
  nm ≠ EmptyString → PurePath.suffix_of (PurePath.rename_suffix nm ".part") = ".part".
Proof.
  intros Hne. destruct (rename_suffix_part nm Hne) as (stem & Hstem & ->).
  by apply suffix_of_part.
Qed.

Lemma with_suffix_part (p : Path) :
  PurePath.with_suffix p ".part"
  = if bool_decide (PurePath.name p = EmptyString)
    then Raise (ValueError "has an empty name")
    else Ok (part_path p).
Proof. reflexivity. Qed.

Lemma name_part_path (p : Path) :
  PurePath.name (part_path p) = PurePath.rename_suffix (PurePath.name p) ".part".
Proof. unfold PurePath.name, part_path. simpl. by rewrite last_snoc. Qed.

Lemma parent_part_path (p : Path) : PurePath.parent (part_path p) = PurePath.parent p.
Proof. unfold PurePath.parent, part_path. simpl. by rewrite removelast_last. Qed.

Lemma suffix_part_path (p : Path) :
  PurePath.name p ≠ EmptyString → PurePath.suffix (part_path p) = ".part".
Proof.
  intros Hne. unfold PurePath.suffix. rewrite name_part_path.
  by apply suffix_of_rename.
Qed.

(** The temporary path differs from every path whose suffix is not
    [.part]; in particular from the target, when the target is not itself
    named [*.part]. *)
Lemma part_path_neq (p q : Path) :
  PurePath.name p ≠ EmptyString →
  PurePath.suffix q ≠ ".part" →
  part_path p ≠ q.
Proof.
  intros Hne Hsfx Heq. apply Hsfx. rewrite <- Heq. by apply suffix_part_path.
Qed.

End PathFacts.

(** ** Reasoning rules for the monad *)

Section Rules.

Context {A B : Type}.

Lemma wp_run (m : M A) (w w' : World) (o : Outcome A) (Q : World → Outcome A → Prop) :
  wp m w Q → m w = (w', o) → Q w' o.
Proof. unfold wp. intros H E. by rewrite E in H. Qed.

Lemma wp_intro (m : M A) (w : World) (Q : World → Outcome A → Prop) :
  (∀ w' o, m w = (w', o) → Q w' o) → wp m w Q.
Proof. unfold wp. intros H. apply H. by destruct (m w). Qed.

Lemma wp_mono (m : M A) (w : World) (Q Q' : World → Outcome A → Prop) :
  (∀ w' o, Q w' o → Q' w' o) → wp m w Q → wp m w Q'.
Proof. unfold wp. auto. Qed.

Lemma wp_ret (a : A) (w : World) (Q : World → Outcome A → Prop) :
  Q w (Ok a) → wp (mret a) w Q.
Proof. done. Qed.

Lemma wp_raise (e : Exn) (w : World) (Q : World → Outcome A → Prop) :
  Q w (Raise e) → wp (raise e) w Q.
Proof. done. Qed.

Lemma wp_lift (o : Outcome A) (w : World) (Q : World → Outcome A → Prop) :
  Q w o → wp (lift o) w Q.
Proof. done. Qed.

Lemma wp_bind (m : M A) (f : A → M B) (w : World) (Q : World → Outcome B → Prop) :
  wp m w (λ w1 o1, match o1 with
                   | Ok a => wp (f a) w1 Q
                   | Raise e => Q w1 (Raise e)
                   end) →
  wp (m ≫= f) w Q.
Proof.
  unfold wp, mbind, M_bind. destruct (m w) as [w1 [a|e]]; simpl; done.
Qed.

Lemma wp_try_except (body : M A) (on_ok : A → M B) (handler : Exn → M B)
    (w : World) (Q : World → Outcome B → Prop) :
  wp body w (λ w1 o1, match o1 with
                      | Ok a => wp (on_ok a) w1 Q
                      | Raise e => wp (handler e) w1 Q
                      end) →
  wp (try_except body on_ok handler) w Q.
Proof.
  unfold wp, try_except. destruct (body w) as [w1 [a|e]]; simpl; done.
Qed.

End Rules.

Section PrimitiveRules.

Implicit Types (w : World) (Q : World → Outcome unit → Prop).

Lemma wp_print l w Q : Q (printed w l) (Ok tt) → wp (print l) w Q.
Proof. done. Qed.

Lemma wp_when (b : bool) (m : M unit) w Q :
  (b = true → wp m w Q) → (b = false → Q w (Ok tt)) → wp (when b m) w Q.
Proof. intros Ht Hf. destruct b; [exact (Ht eq_refl) | exact (Hf eq_refl)]. Qed.

Lemma wp_path_exists p w (Q : World → Outcome bool → Prop) :
  Q w (Ok (bool_decide (is_Some (fs w !! p)))) → wp (path_exists p) w Q.
Proof. done. Qed.

Lemma wp_mkdir_parents p w Q :
  (∀ e, Q w (Raise e)) →
  Q (with_fs w (made_dirs p (fs w))) (Ok tt) →
  wp (mkdir_parents p) w Q.
Proof.
  intros Hr Hk. unfold wp, mkdir_parents.
  destruct (existsb _ _); simpl; [apply Hr | apply Hk].
Qed.

Lemma wp_raise_for_status resp w Q :
  (400 ≤ status resp → Q w (Raise (ClientResponseError (status resp)))) →
  (status resp < 400 → Q w (Ok tt)) →
  wp (raise_for_status resp) w Q.
Proof.
  intros Hr Hk. unfold wp, raise_for_status.
  destruct (400 <=? status resp) eqn:E; simpl.
  - apply Hr. by apply Nat.leb_le.
  - apply Hk. apply Nat.leb_gt in E. lia.
Qed.

Lemma wp_open_wb p w Q :
  (∀ e, fs w !! p = Some Dir → Q w (Raise e)) →
  (fs w !! p ≠ Some Dir → Q (with_fs w (<[p := File EmptyString]> (fs w))) (Ok tt)) →
  wp (open_wb p) w Q.
Proof.
  intros Hr Hk. unfold wp, open_wb.
  destruct (fs w !! p) as [[|c]|] eqn:E; simpl; [by apply Hr | by apply Hk ..].
Qed.

Lemma with_fs_id w : with_fs w (fs w) = w.
Proof. by destruct w. Qed.

(** The chunks are appended to the open file, in order. *)
Lemma stream_writes part (chunks : list string) :
  ∀ w content,
    fs w !! part = Some (File content) →
    for_each (λ chunk, write part chunk) chunks w
    = (with_fs w (<[part := File (content +:+ body_of chunks)]> (fs w)), Ok tt).
Proof.
  induction chunks as [|x chunks IH]; intros w content Hw.
  - simpl. rewrite append_empty_r, (insert_id _ _ _ Hw), with_fs_id. reflexivity.
  - cbn [for_each]. unfold mbind, M_bind. unfold write at 1. rewrite Hw.
    rewrite (IH _ (content +:+ x)); [| by simpl; rewrite lookup_insert_eq].
    simpl. rewrite insert_insert_eq, append_assoc. reflexivity.
Qed.

Lemma wp_stream_body part resp w content Q :
  fs w !! part = Some (File content) →
  (∀ e, stream_error resp = Some e →
        Q (with_fs w (<[part := File (content +:+ body_of (chunks resp))]> (fs w))) (Raise e)) →
  (stream_error resp = None →
   Q (with_fs w (<[part := File (content +:+ body_of (chunks resp))]> (fs w))) (Ok tt)) →
  wp (stream_body part resp) w Q.
Proof.
  intros Hw Hr Hk. unfold wp, stream_body, mbind, M_bind.
  rewrite (stream_writes _ _ _ _ Hw).
  destruct (stream_error resp) as [e|]; simpl; [by apply Hr | by apply Hk].
Qed.

Lemma wp_rename src dst w Q :
  (∀ e, fs w !! src = None ∨ (src ≠ dst ∧ fs w !! dst = Some Dir) → Q w (Raise e)) →
  (src = dst → is_Some (fs w !! src) → Q w (Ok tt)) →
  (∀ n, src ≠ dst → fs w !! src = Some n → fs w !! dst ≠ Some Dir →
        Q (with_fs w (<[dst := n]> (delete src (fs w)))) (Ok tt)) →
  wp (rename src dst) w Q.
Proof.
  intros Hr Hid Hk. unfold wp, rename.
  destruct (fs w !! src) as [n|] eqn:Es; simpl; [| apply Hr; by left].
  case_bool_decide as Heq; simpl; [by apply Hid |].
  destruct (fs w !! dst) as [[|c]|] eqn:Ed; simpl;
    [apply Hr; by right | by apply Hk ..].
Qed.

End PrimitiveRules.

Section ClientRules.

Variable server : list string → string → Outcome Response.

Lemma wp_client_get url w (Q : World → Outcome Response → Prop) :
  (∀ e, server (requests w) url = Raise e → Q (requested w url) (Raise e)) →
  (∀ resp, server (requests w) url = Ok resp → Q (requested w url) (Ok resp)) →
  wp (client_get server url) w Q.
Proof.
  intros Hr Hk. unfold wp, client_get. simpl.
  destruct (server (requests w) url) eqn:E; [by apply Hk | by apply Hr].
Qed.

End ClientRules.

(** ** The file system *)

Section FileSystemFacts.

Lemma made_dirs_lookup (p q : Path) (f : gmap Path Node) :
  made_dirs p f !! q
  = if decide (q ∈ ancestors_and_self p) then Some Dir else f !! q.
Proof.
  unfold made_dirs. induction (ancestors_and_self p) as [|d l IH].
  - destruct (decide (q ∈ [])) as [Hin|_]; [by apply not_elem_of_nil in Hin | done].
  - cbn [foldr]. destruct (decide (d = q)) as [->|Hne].
    + rewrite lookup_insert_eq.
      destruct (decide (q ∈ q :: l)) as [_|Hnin]; [done |].
      exfalso. apply Hnin. by left.
    + rewrite lookup_insert_ne by done. rewrite IH.
      destruct (decide (q ∈ l)) as [Hin|Hnin];
        destruct (decide (q ∈ d :: l)) as [Hin'|Hnin']; try done.
      * exfalso. apply Hnin'. by right.
      * apply elem_of_cons in Hin' as [->|Hq]; done.
Qed.

Lemma made_dirs_keeps (p q : Path) (f : gmap Path Node) :
  is_Some (f !! q) → is_Some (made_dirs p f !! q).
Proof. rewrite made_dirs_lookup. case_decide; [by eexists | done]. Qed.

Lemma ancestors_length (p q : Path) :
  q ∈ ancestors_and_self p →
  1 ≤ length (PurePath.parts q) ≤ length (PurePath.parts p).
Proof.
  unfold ancestors_and_self. intros Hq.
  apply list_elem_of_fmap in Hq as (k & -> & Hk).
  apply elem_of_seq in Hk. simpl. rewrite length_take. lia.
Qed.

Lemma length_parent (t : Path) :
  length (PurePath.parts (PurePath.parent t)) = length (PurePath.parts t) - 1.
Proof.
  unfold PurePath.parent. simpl.
  destruct (PurePath.parts t) as [|x l] using rev_ind; [done |].
  rewrite removelast_last, length_app. simpl. lia.
Qed.

(** [mkdir] of the parent neither creates the target nor its temporary
    file. *)
Lemma target_not_made (t : Path) : t ∉ ancestors_and_self (PurePath.parent t).
Proof.
  intros Hin. apply ancestors_length in Hin. rewrite length_parent in Hin. lia.
Qed.

Lemma part_not_made (t : Path) : part_path t ∉ ancestors_and_self (PurePath.parent t).
Proof.
  intros Hin. apply ancestors_length in Hin. rewrite length_parent in Hin.
  unfold part_path in Hin. simpl in Hin. rewrite length_app in Hin. simpl in Hin.
  destruct (PurePath.parts t) as [|x l] using rev_ind; [simpl in Hin; lia |].
  rewrite removelast_last, length_app in Hin. simpl in Hin. lia.
Qed.

(** The directories [mkdir] walks through for the parent of a target are
    the paths of the first [k] components of the target, for every [k]
    from one up to, and without, the number of its components. *)
Lemma above_target_iff (t d : Path) :
  d ∈ ancestors_and_self (PurePath.parent t)
  ↔ ∃ k, 1 ≤ k < length (PurePath.parts t)
         ∧ d = PurePath.mk (PurePath.root t) (take k (PurePath.parts t)).
Proof.
  unfold ancestors_and_self. rewrite list_elem_of_fmap.
  pose proof (length_parent t) as Hlen.
  assert (Htake : ∀ k, k < length (PurePath.parts t) →
                       take k (PurePath.parts (PurePath.parent t))
                       = take k (PurePath.parts t)).
  { intros k Hk. unfold PurePath.parent. simpl.
    rewrite removelast_firstn_len. change firstn with (@take string).
    rewrite take_take. f_equal. lia. }
  split.
  - intros (k & -> & Hk). apply elem_of_seq in Hk. exists k.
    split; [lia |]. simpl. f_equal. apply Htake. lia.
  - intros (k & Hk & ->). exists k. split.
    + simpl. f_equal. symmetry. apply Htake. lia.
    + apply elem_of_seq. lia.
Qed.

End FileSystemFacts.

(** ** One file *)

Section DownloadFile.

Variable environ : gmap string string.
Variable server : list string → string → Outcome Response.
Variables (model : ModelResource) (destination : Path) (verbose dry_run : bool).
Variable file : ModelFile.

Let t : Path := destination </> path file.
Let u : string := _map_url environ (url file).

(** Every run of the loop body is one of the runs of [file_run]. *)
Lemma download_file_run (w w' : World) (o : Outcome unit) :
  download_file environ server model destination verbose dry_run file w = (w', o) →
  file_run server t (part_path t) u dry_run w w' o.
Proof.
  apply wp_run. unfold download_file. fold t u.
  assert (Hgen : ∀ w0, fs w0 = fs w → requests w0 = requests w →
    wp (found ← path_exists t;
        if found : bool then print (FoundSkipping (name model))
        else
          when verbose (print (Downloading u)) ;;
          mkdir_parents (PurePath.parent t) ;;
          if dry_run then mret tt
          else
            resp ← client_get server u;
            raise_for_status resp ;;
            part ← lift (PurePath.with_suffix t ".part");
            open_wb part ;;
            stream_body part resp ;;
            part' ← lift (PurePath.with_suffix t ".part");
            rename part' t) w0
       (λ w' o, file_run server t (part_path t) u dry_run w w' o)).
  { intros w0 Hfs Hrq. apply wp_bind, wp_path_exists. cbn beta iota.
    case_bool_decide as Hfound.
    { apply wp_print. rewrite Hfs in Hfound. by apply run_skipped. }
    rewrite Hfs in Hfound. apply eq_None_not_Some in Hfound.
    assert (Hgen2 : ∀ w1, fs w1 = fs w → requests w1 = requests w →
      wp (mkdir_parents (PurePath.parent t) ;;
          if dry_run then mret tt
          else
            resp ← client_get server u;
            raise_for_status resp ;;
            part ← lift (PurePath.with_suffix t ".part");
            open_wb part ;;
            stream_body part resp ;;
            part' ← lift (PurePath.with_suffix t ".part");
            rename part' t) w1
         (λ w' o, file_run server t (part_path t) u dry_run w w' o)).
    { clear w0 Hfs Hrq. intros w1 Hfs Hrq.
      apply wp_bind, wp_mkdir_parents; cbn beta iota.
      { intros e. by apply run_mkdir_failed. }
      destruct dry_run eqn:Hdry.
      { apply wp_ret. apply run_dry; simpl; by rewrite ?Hfs. }
      apply wp_bind, wp_client_get; cbn beta iota;
        cbn [requests with_fs]; rewrite Hrq.
      { intros e He. apply run_get_failed; simpl; by rewrite ?Hfs, ?Hrq. }
      intros resp Hresp.
      apply wp_bind, wp_raise_for_status; cbn beta iota.
      { intros Hst. eapply run_bad_status; simpl; by rewrite ?Hfs, ?Hrq. }
      intros Hst. rewrite with_suffix_part.
      case_bool_decide as Hname.
      { apply wp_bind, wp_lift. cbn beta iota.
        eapply run_no_name; simpl; by rewrite ?Hfs, ?Hrq. }
      apply wp_bind, wp_lift. cbn beta iota.
      apply wp_bind, wp_open_wb; cbn beta iota.
      { intros e _. eapply run_open_failed; simpl; by rewrite ?Hfs, ?Hrq. }
      intros _. simpl fs. rewrite Hfs.
      apply wp_bind.
      eapply wp_stream_body; [simpl; apply lookup_insert_eq | ..]; cbn beta iota;
        simpl fs; rewrite insert_insert_eq, append_nil.
      { intros e He. eapply run_stream_failed; simpl; by rewrite ?Hfs, ?Hrq. }
      intros Hse. apply wp_bind, wp_lift. cbn beta iota.
      apply wp_rename; simpl fs.
      - intros e [Habs | [Hne Hdir]].
        + by rewrite lookup_insert_eq in Habs.
        + rewrite lookup_insert_ne, made_dirs_lookup in Hdir by done.
          rewrite decide_False in Hdir by apply target_not_made. congruence.
      - intros Heq _. eapply run_renamed_onto_itself; simpl; by rewrite ?Hfs, ?Hrq.
      - intros n Hne Hn _. rewrite lookup_insert_eq in Hn. injection Hn as <-.
        rewrite delete_insert_eq.
        eapply run_completed; simpl; by rewrite ?Hfs, ?Hrq. }
    apply wp_bind, wp_when; cbn beta iota.
    - intros _. apply wp_print. by apply Hgen2.
    - intros _. by apply Hgen2. }
  apply wp_bind, wp_when; cbn beta iota.
  - intros _. apply wp_print. by apply Hgen.
  - intros _. by apply Hgen.
Qed.

(** A file found at its target path is skipped: no request, no change of
    the file system, success. *)
Lemma download_file_skips (w w' : World) (o : Outcome unit) :
  is_Some (fs w !! t) →
  download_file environ server model destination verbose dry_run file w = (w', o) →
  o = Ok tt ∧ fs w' = fs w ∧ requests w' = requests w.
Proof.
  intros Hex Hrun. apply download_file_run in Hrun.
  destruct Hrun; try done; apply eq_None_not_Some in Hex; done.
Qed.

(** A failed run leaves the target path empty, unless the target is named
    [*.part]; whatever it changed is the temporary file or a directory
    above the target. *)
Lemma download_file_failure (w w' : World) (e : Exn) :
  PurePath.suffix t ≠ ".part" →
  download_file environ server model destination verbose dry_run file w = (w', Raise e) →
  fs w' !! t = None
  ∧ ∀ q, q ≠ part_path t → q ∉ ancestors_and_self (PurePath.parent t) →
         fs w' !! q = fs w !! q.
Proof.
  intros Hsfx Hrun. apply download_file_run in Hrun.
  pose proof (target_not_made t) as Ht.
  inversion Hrun;
    repeat match goal with H : fs w' = _ |- _ => rewrite H; clear H end.
  - done.
  - split; [| intros q _ Hq]; rewrite made_dirs_lookup, decide_False; done.
  - split; [| intros q _ Hq]; rewrite made_dirs_lookup, decide_False; done.
  - split; [| intros q _ Hq]; rewrite made_dirs_lookup, decide_False; done.
  - split; [| intros q _ Hq]; rewrite made_dirs_lookup, decide_False; done.
  - assert (part_path t ≠ t) as Hpt by (by apply part_path_neq).
    split; [| intros q Hqp Hq]; rewrite lookup_insert_ne by done;
      rewrite made_dirs_lookup, decide_False; done.
Qed.

(** A file that appears at the target path was received in full: the
    response had a success status, its stream ended without an exception,
    and the file holds the whole body; the temporary file is gone. *)
Lemma download_file_commit (w w' : World) (o : Outcome unit) :
  PurePath.suffix t ≠ ".part" →
  fs w !! t = None →
  download_file environ server model destination verbose dry_run file w = (w', o) →
  is_Some (fs w' !! t) →
  o = Ok tt ∧ dry_run = false
  ∧ ∃ resp, server (requests w) u = Ok resp
            ∧ status resp < 400
            ∧ stream_error resp = None
            ∧ fs w' !! t = Some (File (body_of (chunks resp)))
            ∧ fs w' !! part_path t = None.
Proof.
  intros Hsfx Habs Hrun Hex.
  destruct o as [[]|e].
  - apply download_file_run in Hrun.
    pose proof (target_not_made t) as Ht.
    inversion Hrun as
      [ Hsome _ _ | | _ _ Hfs _ | | | | | | resp _ _ _ _ Hname _ Hpt _ _
      | resp _ Hdry Hresp Hst Hname Hse Hpt Hfs Hrq ].
    + rewrite Habs in Hsome. by destruct Hsome.
    + rewrite Hfs, made_dirs_lookup, decide_False, Habs in Hex by done.
      by destruct Hex.
    + exfalso. by apply (part_path_neq t t).
    + split; [done |]. split; [done |]. exists resp.
      rewrite Hfs, lookup_insert_eq, lookup_insert_ne, lookup_delete_eq by done.
      done.
  - apply download_file_failure in Hrun as [Hnone _]; [| done].
    rewrite Hnone in Hex. by destruct Hex.
Qed.

(** After a successful run that was not a dry run the target exists. *)
Lemma download_file_ok_exists (w w' : World) :
  dry_run = false →
  download_file environ server model destination verbose dry_run file w = (w', Ok tt) →
  is_Some (fs w' !! t).
Proof.
  intros Hdry Hrun. apply download_file_run in Hrun.
  inversion Hrun as
    [ Hsome Hfs _ | | _ Hd _ _ | | | | | | resp _ _ _ _ _ _ Hpt Hfs _
    | resp _ _ _ _ _ _ _ Hfs _ ].
  - by rewrite Hfs.
  - congruence.
  - rewrite Hfs, Hpt, lookup_insert_eq. by eexists.
  - rewrite Hfs, lookup_insert_eq. by eexists.
Qed.

(** No run removes a path other than the temporary one. *)
Lemma download_file_keeps (w w' : World) (o : Outcome unit) (q : Path) :
  (PurePath.name t ≠ EmptyString → q ≠ part_path t) →
  download_file environ server model destination verbose dry_run file w = (w', o) →
  is_Some (fs w !! q) → is_Some (fs w' !! q).
Proof.
  intros Hq Hrun Hex. apply download_file_run in Hrun.
  inversion Hrun;
    repeat match goal with H : fs w' = _ |- _ => rewrite H; clear H end;
    try done; try (by apply made_dirs_keeps).
  - rewrite lookup_insert_ne by (apply not_eq_sym; auto). by apply made_dirs_keeps.
  - rewrite lookup_insert_ne by (apply not_eq_sym; auto). by apply made_dirs_keeps.
  - destruct (decide (t = q)) as [->|Hne].
    + rewrite lookup_insert_eq. by eexists.
    + rewrite lookup_insert_ne, lookup_delete_ne by (try apply not_eq_sym; auto).
      by apply made_dirs_keeps.
Qed.

(** In particular no run removes a file that is not named [*.part]. *)
Lemma download_file_keeps_targets (w w' : World) (o : Outcome unit) (q : Path) :
  PurePath.suffix q ≠ ".part" →
  download_file environ server model destination verbose dry_run file w = (w', o) →
  is_Some (fs w !! q) → is_Some (fs w' !! q).
Proof.
  intros Hsfx. apply download_file_keeps.
  intros Hname Heq. by apply (part_path_neq t q).
Qed.

(** Requests: none in a dry run, at most the one of the mapped URL
    otherwise. *)
Lemma download_file_requests (w w' : World) (o : Outcome unit) :
  download_file environ server model destination verbose dry_run file w = (w', o) →
  (dry_run = true → requests w' = requests w)
  ∧ (requests w' = requests w ∨ requests w' = requests w ++ [u]).
Proof.
  intros Hrun. apply download_file_run in Hrun.
  inversion Hrun; split; intros; try congruence; auto.
Qed.

End DownloadFile.

(** ** Loops *)

Section Loops.

Context {A : Type}.
Implicit Types (body : A → M unit) (l : list A).

Lemma for_each_cons body x l (w : World) :
  for_each body (x :: l) w
  = match body x w with
    | (w1, Ok _) => for_each body l w1
    | (w1, Raise e) => (w1, Raise e)
    end.
Proof. reflexivity. Qed.

(** An exception out of a loop comes from one element, the ones before it
    having succeeded. *)
Lemma for_each_raise body l :
  ∀ w w' e, for_each body l w = (w', Raise e) →
  ∃ done x rest wx,
    l = done ++ x :: rest
    ∧ for_each body done w = (wx, Ok tt)
    ∧ body x wx = (w', Raise e).
Proof.
  induction l as [|y l IH]; intros w w' e Hrun; [discriminate |].
  rewrite for_each_cons in Hrun.
  destruct (body y w) as [w1 [[]|e1]] eqn:Hy.
  - destruct (IH _ _ _ Hrun) as (done & x & rest & wx & -> & Hdone & Hx).
    exists (y :: done), x, rest, wx. split; [done |]. split; [| done].
    by rewrite for_each_cons, Hy.
  - injection Hrun as <- <-. exists [], y, l, w. done.
Qed.

(** A property kept by every iteration is kept by the loop. *)
Lemma for_each_keeps body (I : World → Prop) l :
  (∀ x w w' o, x ∈ l → I w → body x w = (w', o) → I w') →
  ∀ w w' o, I w → for_each body l w = (w', o) → I w'.
Proof.
  induction l as [|y l IH]; intros Hbody w w' o Hw Hrun.
  - injection Hrun as <- _. done.
  - rewrite for_each_cons in Hrun.
    destruct (body y w) as [w1 [[]|e1]] eqn:Hy.
    + eapply IH; [| | exact Hrun].
      * intros x v v' o' Hx. apply Hbody. by right.
      * eapply Hbody; [by left | exact Hw | exact Hy].
    + injection Hrun as <- _. eapply Hbody; [by left | exact Hw | exact Hy].
Qed.

(** A loop whose iterations all succeed succeeds. *)
Lemma for_each_ok body (I : World → Prop) l :
  (∀ x w w' o, x ∈ l → I w → body x w = (w', o) → I w' ∧ o = Ok tt) →
  ∀ w w' o, I w → for_each body l w = (w', o) → I w' ∧ o = Ok tt.
Proof.
  induction l as [|y l IH]; intros Hbody w w' o Hw Hrun.
  - injection Hrun as <- <-. done.
  - rewrite for_each_cons in Hrun.
    destruct (body y w) as [w1 [[]|e1]] eqn:Hy.
    + eapply IH; [| | exact Hrun].
      * intros x v v' o' Hx. apply Hbody. by right.
      * eapply Hbody; [by left | exact Hw | exact Hy].
    + destruct (Hbody y w w1 (Raise e1)) as [_ Habs]; [by left | done | done |].
      discriminate.
Qed.

End Loops.

(** ** The retry wrapper *)

Section Retry.

Variable environ : gmap string string.
Variable server : list string → string → Outcome Response.
Variables (model : ModelResource) (destination : Path) (verbose dry_run : bool).
Variable retry_attempts : Z.

Local Abbreviation attempt_download := (download environ server model destination verbose dry_run).
Local Abbreviation loop := (retry_loop environ server model destination verbose dry_run retry_attempts).

Lemma retry_loop_exhausted (continue_on_error : bool) (w : World) :
  loop continue_on_error [] w
  = (w, if continue_on_error then Ok tt
        else Raise (RuntimeError (name model) retry_attempts)).
Proof. by destruct continue_on_error. Qed.

Lemma retry_loop_ok (continue_on_error : bool) (a : nat) (l : list nat) (w w1 : World) :
  attempt_download w = (w1, Ok tt) →
  loop continue_on_error (a :: l) w = (w1, Ok tt).
Proof. intros H. cbn [retry_loop]. unfold try_except. by rewrite H. Qed.

(** Without [continue_on_error] the handler raises again: the first failed
    attempt ends the loop, whatever number of attempts is left. *)
Lemma retry_loop_reraises (a : nat) (l : list nat) (w w1 : World) (e : Exn) :
  attempt_download w = (w1, Raise e) →
  loop false (a :: l) w = (printed w1 (ErrorDownloading (name model) a e), Raise e).
Proof. intros H. cbn [retry_loop]. unfold try_except. by rewrite H. Qed.

Lemma retry_loop_continues (a : nat) (l : list nat) (w w1 : World) (e : Exn) :
  attempt_download w = (w1, Raise e) →
  loop true (a :: l) w = loop true l (printed w1 (ErrorDownloading (name model) a e)).
Proof. intros H. cbn [retry_loop]. unfold try_except. by rewrite H. Qed.

(** With [continue_on_error], failed attempts are retried while attempts
    are left. *)
Lemma retry_loop_after_failures (a k : nat) (w w1 : World) (l : list nat) :
  failing_attempts environ server model destination verbose dry_run a k w w1 →
  loop true (seq a k ++ l) w = loop true l w1.
Proof.
  induction 1 as [a w | a k w w1 e w2 Hfail _ IH]; [reflexivity |].
  cbn [seq app]. rewrite (retry_loop_continues _ _ _ _ _ Hfail). exact IH.
Qed.

(** With [continue_on_error] the wrapper never raises. *)
Lemma retry_loop_continue_ok (l : list nat) :
  ∀ w w' o, loop true l w = (w', o) → o = Ok tt.
Proof.
  induction l as [|a l IH]; intros w w' o Hrun.
  - rewrite retry_loop_exhausted in Hrun. by injection Hrun as _ <-.
  - destruct (attempt_download w) as [w1 [[]|e]] eqn:Hd.
    + rewrite (retry_loop_ok _ _ _ _ _ Hd) in Hrun. by injection Hrun as _ <-.
    + rewrite (retry_loop_continues _ _ _ _ _ Hd) in Hrun. by eapply IH.
Qed.

(** A property of the world kept by [download] and by printing is kept by
    the wrapper. *)
Lemma retry_loop_keeps (I : World → Prop) (continue_on_error : bool) (l : list nat) :
  (∀ w w' o, I w → attempt_download w = (w', o) → I w') →
  (∀ w line, I w → I (printed w line)) →
  ∀ w w' o, I w → loop continue_on_error l w = (w', o) → I w'.
Proof.
  intros Hd Hp. induction l as [|a l IH]; intros w w' o Hw Hrun.
  - rewrite retry_loop_exhausted in Hrun. by injection Hrun as <- _.
  - destruct (attempt_download w) as [w1 [[]|e]] eqn:Hw1.
    + rewrite (retry_loop_ok _ _ _ _ _ Hw1) in Hrun. injection Hrun as <- _.
      by eapply Hd.
    + destruct continue_on_error.
      * rewrite (retry_loop_continues _ _ _ _ _ Hw1) in Hrun.
        eapply IH; [| exact Hrun]. apply Hp. by eapply Hd.
      * rewrite (retry_loop_reraises _ _ _ _ _ Hw1) in Hrun. injection Hrun as <- _.
        apply Hp. by eapply Hd.
Qed.

(** Without [continue_on_error], a normal return of the wrapper is the
    normal return of its first attempt. *)
Lemma retry_loop_ok_inv (l : list nat) (w w' : World) :
  loop false l w = (w', Ok tt) → attempt_download w = (w', Ok tt).
Proof.
  destruct l as [|a l]; intros Hrun.
  - rewrite retry_loop_exhausted in Hrun. discriminate.
  - destruct (attempt_download w) as [w1 [[]|e]] eqn:Hw1.
    + rewrite (retry_loop_ok _ _ _ _ _ Hw1) in Hrun. by injection Hrun as <-.
    + rewrite (retry_loop_reraises _ _ _ _ _ Hw1) in Hrun. discriminate.
Qed.

End Retry.

(** ** A model, and the batch *)

Section Batch.

Variable environ : gmap string string.
Variable server : list string → string → Outcome Response.
Variables (destination : Path) (verbose dry_run : bool).

Local Abbreviation target f := (destination </> path f).

Lemma elem_of_insert_by_name (m x : ModelResource) (l : list ModelResource) :
  x ∈ insert_by_name m l ↔ x = m ∨ x ∈ l.
Proof.
  induction l as [|y l IH]; simpl.
  - rewrite list_elem_of_singleton. split; [auto |]. intros [H|H]; [done |].
    by apply not_elem_of_nil in H.
  - destruct (String.leb (name m) (name y)).
    + by rewrite elem_of_cons.
    + rewrite !elem_of_cons, IH. tauto.
Qed.

(** The sorted list holds the models of the set, and only them. *)
Lemma elem_of_sorted_by_name (models : gset ModelResource) (m : ModelResource) :
  m ∈ sorted_by_name models ↔ m ∈ models.
Proof.
  unfold sorted_by_name. rewrite <- elem_of_elements.
  induction (elements models) as [|y l IH]; simpl.
  - done.
  - rewrite elem_of_insert_by_name, elem_of_cons, IH. done.
Qed.

(** When every file of a model is in place, [download] requests nothing,
    changes nothing and succeeds. *)
Lemma download_all_present (model : ModelResource) (w w' : World) (o : Outcome unit) :
  (∀ f, f ∈ files model → is_Some (fs w !! target f)) →
  download environ server model destination verbose dry_run w = (w', o) →
  (fs w' = fs w ∧ requests w' = requests w) ∧ o = Ok tt.
Proof.
  intros Hall. unfold download.
  apply (for_each_ok _ (λ v, fs v = fs w ∧ requests v = requests w)); [| done].
  intros f v v' o' Hf [Hfs Hrq] Hrun.
  apply download_file_skips in Hrun as (-> & Hfs' & Hrq').
  - split; [| done]. split; congruence.
  - rewrite Hfs. by apply Hall.
Qed.

Lemma retry_all_present (model : ModelResource) (retry_attempts : Z)
    (continue_on_error : bool) (w w' : World) (o : Outcome unit) :
  (∀ f, f ∈ files model → is_Some (fs w !! target f)) →
  download_with_retry environ server model destination verbose dry_run
    retry_attempts continue_on_error w = (w', o) →
  (fs w' = fs w ∧ requests w' = requests w)
  ∧ ((1 ≤ retry_attempts)%Z ∨ continue_on_error = true → o = Ok tt).
Proof.
  intros Hall. unfold download_with_retry.
  destruct (seq 0 (Z.to_nat retry_attempts)) as [|a l] eqn:Hseq.
  - rewrite retry_loop_exhausted. intros [= <- <-]. split; [done |].
    intros [Hn | ->]; [| done].
    apply (f_equal length) in Hseq. rewrite length_seq in Hseq. simpl in Hseq. lia.
  - destruct (download environ server model destination verbose dry_run w)
      as [w1 o1] eqn:Hd.
    destruct (download_all_present _ _ _ _ Hall Hd) as [Hsame ->].
    rewrite (retry_loop_ok _ _ _ _ _ _ _ _ _ _ _ _ Hd). intros [= <- <-]. done.
Qed.

(** With every file of every model in place the fetch step requests
    nothing and changes nothing. *)
Lemma fetch_all_present (models : gset ModelResource)
    (retry_attempts : Z) (continue_on_error : bool) (w w' : World) (o : Outcome unit) :
  (∀ m f, m ∈ models → f ∈ files m → is_Some (fs w !! target f)) →
  fetch_all environ server models destination verbose dry_run retry_attempts
    continue_on_error w = (w', o) →
  requests w' = requests w ∧ fs w' = fs w
  ∧ ((1 ≤ retry_attempts)%Z ∨ continue_on_error = true → o = Ok tt).
Proof.
  intros Hall Hrun. unfold fetch_all in Hrun.
  set (I := λ v : World, fs v = fs w ∧ requests v = requests w).
  assert (Hbody : ∀ m v v' o', m ∈ sorted_by_name models → I v →
     (when verbose (print (ModelHeader (name m))) ;;
      download_with_retry environ server m destination verbose dry_run
        retry_attempts continue_on_error) v = (v', o') →
     I v' ∧ ((1 ≤ retry_attempts)%Z ∨ continue_on_error = true → o' = Ok tt)).
  { intros m v v' o' Hm [Hfs Hrq] Hstep.
    apply elem_of_sorted_by_name in Hm.
    assert (Hretry : ∀ v0, fs v0 = fs w → requests v0 = requests w →
      download_with_retry environ server m destination verbose dry_run
        retry_attempts continue_on_error v0 = (v', o') →
      I v' ∧ ((1 ≤ retry_attempts)%Z ∨ continue_on_error = true → o' = Ok tt)).
    { intros v0 Hfs0 Hrq0 Hr. apply retry_all_present in Hr as [[Hfs' Hrq'] Ho].
      - split; [split; congruence | done].
      - intros f Hf. rewrite Hfs0. by apply (Hall m f). }
    destruct verbose; [by apply (Hretry (printed v (ModelHeader (name m)))) |].
    by apply (Hretry v). }
  assert (HI : I w') .
  { eapply (for_each_keeps _ I); [| | exact Hrun]; [| done].
    intros m v v' o' Hm Hv Hstep. by destruct (Hbody m v v' o' Hm Hv Hstep). }
  destruct HI as [Hfs Hrq]. split; [done |]. split; [done |].
  intros Hn. eapply (for_each_ok _ I); [| | exact Hrun]; [| done].
  intros m v v' o' Hm Hv Hstep.
  destruct (Hbody m v v' o' Hm Hv Hstep) as [HI Ho]. split; [done | by apply Ho].
Qed.

End Batch.

(** ** Running the fetch step twice *)

Section Idempotence.

Variable environ : gmap string string.
Variable server : list string → string → Outcome Response.
Variables (destination : Path) (verbose : bool).

Local Abbreviation target f := (destination </> path f).

(** [download] keeps every file that is not named [*.part]. *)
Lemma download_keeps_targets (model : ModelResource) (dry_run : bool) (q : Path)
    (w w' : World) (o : Outcome unit) :
  PurePath.suffix q ≠ ".part" →
  is_Some (fs w !! q) →
  download environ server model destination verbose dry_run w = (w', o) →
  is_Some (fs w' !! q).
Proof.
  intros Hsfx Hq. unfold download.
  apply (for_each_keeps _ (λ v, is_Some (fs v !! q))); [| done].
  intros f v v' o' _ Hv Hrun. by eapply download_file_keeps_targets.
Qed.

(** After a successful [download] (no dry run) every file of the model is
    in place, provided no target is named [*.part]. *)
Lemma download_ok_all_present (model : ModelResource) (w w' : World) :
  (∀ f, f ∈ files model → PurePath.suffix (target f) ≠ ".part") →
  download environ server model destination verbose false w = (w', Ok tt) →
  ∀ f, f ∈ files model → is_Some (fs w' !! target f).
Proof.
  unfold download. generalize (files model) as l. intros l. revert w.
  induction l as [|g l IH]; intros w Hsfx Hrun f Hf; [by apply not_elem_of_nil in Hf |].
  rewrite for_each_cons in Hrun.
  destruct (download_file environ server model destination verbose false g w)
    as [w1 [[]|e]] eqn:Hg; [| discriminate].
  apply elem_of_cons in Hf as [-> | Hf].
  - apply (for_each_keeps (download_file environ server model destination verbose false)
             (λ v, is_Some (fs v !! target g)) l) with (w := w1) (o := Ok tt);
      [| | exact Hrun].
    + intros x v v' o' _ Hv Hx. eapply download_file_keeps_targets; [| exact Hx | exact Hv].
      apply Hsfx. by left.
    + by eapply download_file_ok_exists.
  - eapply IH; [| exact Hrun | exact Hf]. intros x Hx. apply Hsfx. by right.
Qed.

(** Idempotence: after a fetch step that succeeded (no dry run and no
    [continue_on_error]), a second fetch step over the same models issues
    no request. *)
Lemma fetch_all_second_run (models : gset ModelResource) (retry_attempts : Z)
    (w w1 w2 : World) (o : Outcome unit) (dry_run' continue' : bool) :
  (∀ m f, m ∈ models → f ∈ files m → PurePath.suffix (target f) ≠ ".part") →
  fetch_all environ server models destination verbose false retry_attempts false w
  = (w1, Ok tt) →
  fetch_all environ server models destination verbose dry_run' retry_attempts
    continue' w1 = (w2, o) →
  requests w2 = requests w1 ∧ fs w2 = fs w1.
Proof.
  intros Hsfx Hfirst Hsecond.
  assert (Hall : ∀ m f, m ∈ models → f ∈ files m → is_Some (fs w1 !! target f)).
  { intros m f Hm. apply elem_of_sorted_by_name in Hm.
    assert (Hsfx' : ∀ m f, m ∈ sorted_by_name models → f ∈ files m →
                           PurePath.suffix (target f) ≠ ".part").
    { intros m' f' Hm'. apply elem_of_sorted_by_name in Hm'. by apply Hsfx. }
    clear Hsfx Hsecond. unfold fetch_all in Hfirst. revert w Hfirst m Hm f.
    induction (sorted_by_name models) as [|y l IH]; intros w Hfirst m Hm f Hf;
      [by apply not_elem_of_nil in Hm |].
    rewrite for_each_cons in Hfirst.
    destruct ((when verbose (print (ModelHeader (name y))) ;;
               download_with_retry environ server y destination verbose false
                 retry_attempts false) w) as [v [[]|e]] eqn:Hy; [| discriminate].
    apply elem_of_cons in Hm as [-> | Hm].
    - assert (Hv : is_Some (fs v !! target f)).
      { assert (Hr : ∃ v0, download environ server y destination verbose false v0
                           = (v, Ok tt)).
        { destruct verbose; [eexists |eexists]; eapply retry_loop_ok_inv; exact Hy. }
        destruct Hr as [v0 Hr].
        eapply download_ok_all_present; [| exact Hr | exact Hf].
        intros g Hg. eapply Hsfx'; [by left | exact Hg]. }
      apply (for_each_keeps
               (λ model, when verbose (print (ModelHeader (name model))) ;;
                         download_with_retry environ server model destination verbose
                           false retry_attempts false)
               (λ u, is_Some (fs u !! target f)) l) with (w := v) (o := Ok tt);
        [| exact Hv | exact Hfirst].
      intros x u u' o' Hx Hu Hstep.
      assert (Hkeep : ∀ u0, is_Some (fs u0 !! target f) →
        download_with_retry environ server x destination verbose false
          retry_attempts false u0 = (u', o') → is_Some (fs u' !! target f)).
      { intros u0 Hu0. unfold download_with_retry.
        apply (retry_loop_keeps _ _ _ _ _ _ _ (λ u, is_Some (fs u !! target f)));
          [| done | done].
        intros a a' oa Ha Hd. eapply download_keeps_targets; [| exact Ha | exact Hd].
        eapply Hsfx'; [by left | exact Hf]. }
      destruct verbose; [by apply (Hkeep (printed u (ModelHeader (name x)))) |].
      by apply (Hkeep u).
    - eapply IH; [| exact Hfirst | exact Hm | exact Hf].
      intros m' f' Hm'. apply Hsfx'. by right. }
  destruct (fetch_all_present environ server destination verbose dry_run'
              models retry_attempts continue' w1 w2 o Hall Hsecond) as (Hrq & Hfs & _).
  done.
Qed.

End Idempotence.




(** ** The temporary file and the commit by renaming *)

(** An exception of [download] is the exception of the step of one of the
    files, the files before it having succeeded. *)
Lemma download_raise_at_file (environ : gmap string string)
    (server : list string → string → Outcome Response)
    (model : ModelResource) (destination : Path) (verbose dry_run : bool)
    (w w' : World) (e : Exn) :
  download environ server model destination verbose dry_run w = (w', Raise e) →
  ∃ done f rest wf,
    files model = done ++ f :: rest
    ∧ for_each (download_file environ server model destination verbose dry_run) done w
      = (wf, Ok tt)
    ∧ download_file environ server model destination verbose dry_run f wf = (w', Raise e).
Proof. unfold download. apply for_each_raise. Qed.

(** C4, as amended.  For every file whose target is not named [*.part],
    whatever the other files of the model are named: when the step of that
    file raises (non-success status, broken stream, or any other exception
    of the step), nothing exists at its target path afterwards, and apart
    from its temporary path and the directories above the target (the
    paths of the first [k] components of the target, [k] below their
    number) the file system is as it was before the step. *)
Theorem download_failure_leaves_no_target (environ : gmap string string)
    (server : list string → string → Outcome Response)
    (model : ModelResource) (destination : Path) (verbose dry_run : bool)
    (file : ModelFile) (w w' : World) (e : Exn) :
  PurePath.suffix (destination </> path file) ≠ ".part" →
  download_file environ server model destination verbose dry_run file w = (w', Raise e) →
  fs w' !! (destination </> path file) = None
  ∧ ∀ q, q ≠ part_path (destination </> path file) →
         (∀ k, 1 ≤ k < length (PurePath.parts (destination </> path file)) →
               q ≠ PurePath.mk (PurePath.root (destination </> path file))
                     (take k (PurePath.parts (destination </> path file)))) →
         fs w' !! q = fs w !! q.
Proof.
  intros Hsfx Hrun.
  destruct (download_file_failure environ server model destination verbose dry_run
              file w w' e Hsfx Hrun) as [Hnone Hframe].
  split; [exact Hnone |].
  intros q Hpart Habove. apply Hframe; [exact Hpart |].
  intros Hin. apply above_target_iff in Hin. destruct Hin as (k & Hk & ->).
  by apply (Habove k).
Qed.

Lemma download_failure_leaves_no_target_witness :
  PurePath.suffix (tmp_models </> path file_a) ≠ ".part"
  ∧ (download_file ∅ broken_server model_ap tmp_models false false file_a empty_world).2
    = Raise (ClientError "payload")
  ∧ (download ∅ broken_server model_ap tmp_models false false empty_world).2
    = Raise (ClientError "payload")
  ∧ fs (download ∅ broken_server model_ap tmp_models false false empty_world).1
      !! (tmp_models </> path file_a) = None.
Proof.
  assert (Hsfx : PurePath.suffix (tmp_models </> path file_a) ≠ ".part")
    by (vm_compute; discriminate).
  assert (Hstep :
    download_file ∅ broken_server model_ap tmp_models false false file_a empty_world
    = ((download ∅ broken_server model_ap tmp_models false false empty_world).1,
       Raise (ClientError "payload"))).
  { vm_compute. reflexivity. }
  split; [exact Hsfx |]. split; [vm_compute; reflexivity |].
  split; [vm_compute; reflexivity |].
  exact (proj1 (download_failure_leaves_no_target _ _ _ _ _ _ _ _ _ _ Hsfx Hstep)).
Defined.

(** C4, counterexample.  The target of [file_p] is named [b.part], its
    temporary path is the target path itself: the body breaks off after
    the first chunk, [download] raises, and the partial file stands at
    the final target path. *)
Lemma failure_leaves_file_at_part_target :
  (download ∅ broken_server model_p tmp_models false false empty_world).2
  = Raise (ClientError "payload")
  ∧ fs (download ∅ broken_server model_p tmp_models false false empty_world).1
      !! (tmp_models </> path file_p) = Some (File "ab").
Proof. split; vm_compute; reflexivity. Qed.

(** C5, as amended.  For a target with a non-empty name whose suffix is
    not [.part]: the temporary path is what [with_suffix(".part")] gives,
    a sibling of the target whose suffix is [.part] (it replaces the
    suffix of the target, or is appended to a name without one), it
    differs from the target, and a run that puts a file at the target path
    has received the whole body before (success status, stream ended
    without exception, the file holds all chunks, the temporary file is
    gone). *)
Theorem part_file_is_temporary (destination : Path) (file : ModelFile) :
  PurePath.name (destination </> path file) ≠ EmptyString →
  PurePath.suffix (destination </> path file) ≠ ".part" →
  PurePath.with_suffix (destination </> path file) ".part"
  = Ok (part_path (destination </> path file))
  ∧ PurePath.parent (part_path (destination </> path file))
    = PurePath.parent (destination </> path file)
  ∧ PurePath.suffix (part_path (destination </> path file)) = ".part"
  ∧ part_path (destination </> path file) ≠ destination </> path file
  ∧ ∀ environ server model verbose dry_run w w' o,
      fs w !! (destination </> path file) = None →
      download_file environ server model destination verbose dry_run file w = (w', o) →
      is_Some (fs w' !! (destination </> path file)) →
      o = Ok tt ∧ dry_run = false
      ∧ ∃ resp, server (requests w) (_map_url environ (url file)) = Ok resp
                ∧ status resp < 400
                ∧ stream_error resp = None
                ∧ fs w' !! (destination </> path file)
                  = Some (File (body_of (chunks resp)))
                ∧ fs w' !! part_path (destination </> path file) = None.
Proof.
  intros Hname Hsfx.
  split. { rewrite with_suffix_part. by rewrite bool_decide_eq_false_2. }
  split. { apply parent_part_path. }
  split. { by apply suffix_part_path. }
  split. { by apply part_path_neq. }
  intros environ server model verbose dry_run w w' o Habs Hrun Hex.
  by eapply download_file_commit.
Qed.

Lemma part_file_is_temporary_witness :
  PurePath.name (tmp_models </> path file_a) ≠ EmptyString
  ∧ PurePath.suffix (tmp_models </> path file_a) ≠ ".part"
  ∧ PurePath.with_suffix (tmp_models </> path file_a) ".part"
    = Ok (PurePath.mk true ["tmp"; "models"; "checkpoints"; "a.part"])
  ∧ PurePath.mk true ["tmp"; "models"; "checkpoints"; "a.part"]
    ≠ tmp_models </> path file_a.
Proof.
  assert (Hname : PurePath.name (tmp_models </> path file_a) ≠ EmptyString)
    by (vm_compute; discriminate).
  assert (Hsfx : PurePath.suffix (tmp_models </> path file_a) ≠ ".part")
    by (vm_compute; discriminate).
  split; [exact Hname |]. split; [exact Hsfx |].
  destruct (part_file_is_temporary tmp_models file_a Hname Hsfx)
    as (Hpart & _ & _ & Hneq & _).
  split; [exact Hpart | exact Hneq].
Defined.

(** C5, counterexample.  For the file named [b.part] the temporary path
    is the final target path. *)
Lemma part_path_of_part_file_is_target :
  PurePath.with_suffix (tmp_models </> path file_p) ".part"
  = Ok (tmp_models </> path file_p).
Proof. vm_compute. reflexivity. Qed.

(** ** The retry wrapper as a whole *)

Section RetryWrapper.

Variable environ : gmap string string.
Variable server : list string → string → Outcome Response.
Variables (model : ModelResource) (destination : Path) (verbose dry_run : bool).

Local Abbreviation attempt_download := (download environ server model destination verbose dry_run).
Local Abbreviation wrapper := (download_with_retry environ server model destination verbose dry_run).

(** No attempt is made for a count below one: the [else] clause of the
    loop decides. *)
Lemma download_with_retry_no_attempt (retry_attempts : Z) (continue_on_error : bool)
    (w : World) :
  (retry_attempts ≤ 0)%Z →
  wrapper retry_attempts continue_on_error w
  = (w, if continue_on_error then Ok tt
        else Raise (RuntimeError (name model) retry_attempts)).
Proof.
  intros Hn. unfold download_with_retry.
  replace (Z.to_nat retry_attempts) with 0 by lia.
  apply retry_loop_exhausted.
Qed.

(** Without [continue_on_error] and with at least one attempt allowed, the
    wrapper is one call of [download]: its exception is printed and raised
    again at once. *)
Lemma download_with_retry_single_attempt (retry_attempts : Z) (w : World) :
  (1 ≤ retry_attempts)%Z →
  wrapper retry_attempts false w
  = match attempt_download w with
    | (w1, Ok _) => (w1, Ok tt)
    | (w1, Raise e) => (printed w1 (ErrorDownloading (name model) 0 e), Raise e)
    end.
Proof.
  intros Hn. unfold download_with_retry.
  destruct (Z.to_nat retry_attempts) as [|k] eqn:Hk; [lia |]. cbn [seq].
  destruct (attempt_download w) as [w1 [[]|e]] eqn:Hd.
  - by apply retry_loop_ok.
  - by apply retry_loop_reraises.
Qed.

(** With [continue_on_error], [k] failed attempts followed by a successful
    one make the wrapper succeed when [k + 1] attempts are allowed. *)
Lemma download_with_retry_eventually (k : nat) (w w1 w2 : World) :
  failing_attempts environ server model destination verbose dry_run 0 k w w1 →
  attempt_download w1 = (w2, Ok tt) →
  wrapper (Z.of_nat (S k)) true w = (w2, Ok tt).
Proof.
  intros Hfail Hok. unfold download_with_retry.
  rewrite Nat2Z.id, seq_S.
  rewrite (retry_loop_after_failures _ _ _ _ _ _ _ _ _ _ _ _ Hfail).
  by apply retry_loop_ok.
Qed.

(** With [continue_on_error], when all the allowed attempts fail the
    wrapper returns normally, the errors printed. *)
Lemma download_with_retry_gives_up_quietly (k : nat) (w w1 : World) :
  failing_attempts environ server model destination verbose dry_run 0 k w w1 →
  wrapper (Z.of_nat k) true w = (w1, Ok tt).
Proof.
  intros Hfail. unfold download_with_retry.
  rewrite Nat2Z.id, <- (app_nil_r (seq 0 k)).
  rewrite (retry_loop_after_failures _ _ _ _ _ _ _ _ _ _ _ _ Hfail).
  apply retry_loop_exhausted.
Qed.

(** With [continue_on_error] the wrapper never raises. *)
Lemma download_with_retry_continue_ok (retry_attempts : Z) (w w' : World)
    (o : Outcome unit) :
  wrapper retry_attempts true w = (w', o) → o = Ok tt.
Proof. apply retry_loop_continue_ok. Qed.

End RetryWrapper.

(** With [continue_on_error] the batch goes through all models and returns
    normally. *)
Lemma fetch_all_continue_ok (environ : gmap string string)
    (server : list string → string → Outcome Response)
    (models : gset ModelResource) (destination : Path) (verbose dry_run : bool)
    (retry_attempts : Z) (w w' : World) (o : Outcome unit) :
  fetch_all environ server models destination verbose dry_run retry_attempts true w
  = (w', o) →
  o = Ok tt.
Proof.
  unfold fetch_all. intros Hrun.
  eapply (for_each_ok _ (λ _, True)); [| exact I | exact Hrun].
  intros m v v' o' _ _ Hstep. split; [exact I |].
  destruct verbose; eapply download_with_retry_continue_ok; exact Hstep.
Qed.

(** C1, the failing input.  Two attempts are allowed and
    [continue_on_error] is off; the server answers 503 to the first
    request and would serve the second.  The wrapper raises the error of
    the first attempt after that single request, although the attempt that
    would follow succeeds (so does the wrapper itself, on the same input,
    with [continue_on_error] on). *)
Theorem retry_stops_at_first_failure :
  (download_with_retry ∅ flaky_server model_a tmp_models false false 2 false
     empty_world).2 = Raise (ClientResponseError 503)
  ∧ requests (download_with_retry ∅ flaky_server model_a tmp_models false false 2 false
                empty_world).1 = [url file_a]
  ∧ (download ∅ flaky_server model_a tmp_models false false
       (download_with_retry ∅ flaky_server model_a tmp_models false false 2 false
          empty_world).1).2 = Ok tt
  ∧ (download_with_retry ∅ flaky_server model_a tmp_models false false 2 true
       empty_world).2 = Ok tt.
Proof. repeat split; vm_compute; reflexivity. Qed.

(** ** The selection *)

Section Selection.

Variable cat : Catalog.
Implicit Types (o : Options) (m : ModelResource) (s : gset ModelResource).

Lemma elem_of_update m s (l : list ModelResource) :
  m ∈ update s l ↔ m ∈ s ∨ m ∈ l.
Proof. unfold update. rewrite elem_of_union, elem_of_list_to_set. done. Qed.

Lemma elem_of_update_if (b : bool) m s (l : list ModelResource) :
  m ∈ (if b then update s l else s) ↔ m ∈ s ∨ (b = true ∧ m ∈ l).
Proof.
  destruct b; [rewrite elem_of_update |]; intuition congruence.
Qed.

(** The exclusion removes the models whose id string is listed, and only
    them. *)
Lemma elem_of_exclusion m s (excluded : list string) :
  m ∈ s ∖ list_to_set (filter (λ m, id_string (id m) ∈ excluded) (elements s))
  ↔ m ∈ s ∧ id_string (id m) ∉ excluded.
Proof.
  rewrite elem_of_difference, elem_of_list_to_set, list_elem_of_filter, elem_of_elements.
  tauto.
Qed.

Lemma elem_of_select_rest o (versions : list Arch.t) m s :
  versions = versions_of o →
  m ∈ select_rest cat o versions s
  ↔ (m ∈ s ∨ picked_rest cat o m) ∧ id_string (id m) ∉ exclude o.
Proof.
  intros ->. unfold select_rest. cbv zeta. rewrite elem_of_exclusion.
  apply and_iff_compat_r. unfold picked_rest.
  rewrite !elem_of_update_if.
  destruct (upscalers o || recommended o || all o);
    rewrite ?elem_of_update, ?elem_of_update_if, ?list_elem_of_filter;
    intuition congruence.
Qed.

(** The selection is defined unless two presets are given, or [minimal]
    meets an empty list of default checkpoints. *)
Lemma selection_defined o :
  preset_count o ≤ 1 →
  (minimal o = true → default_checkpoints cat ≠ []) →
  ∃ s, selection cat o = Ok s.
Proof.
  intros Hp Hdc. unfold selection.
  replace (preset_count o <=? 1) with true by (symmetry; by apply Nat.leb_le).
  unfold select_models, add_first_checkpoint.
  destruct (minimal o); [| by eexists].
  destruct (default_checkpoints cat); [by destruct Hdc | by eexists].
Qed.

(** The selection holds the models some rule picks, the excluded ones
    left out. *)
Lemma elem_of_selection o s m :
  selection cat o = Ok s →
  m ∈ s ↔ picked cat o m ∧ id_string (id m) ∉ exclude o.
Proof.
  unfold selection. destruct (preset_count o <=? 1); [| discriminate].
  unfold select_models, add_first_checkpoint, picked. cbv zeta.
  destruct (minimal o) eqn:Hmin.
  - destruct (default_checkpoints cat) as [|m0 dc] eqn:Hdc; [discriminate |].
    intros [= <-]. rewrite elem_of_select_rest by done.
    apply and_iff_compat_r.
    rewrite elem_of_union, elem_of_singleton, !elem_of_update,
      !list_elem_of_filter, elem_of_empty. simpl.
    intuition congruence.
  - intros [= <-]. rewrite elem_of_select_rest by done.
    apply and_iff_compat_r.
    rewrite elem_of_update_if, elem_of_update, !list_elem_of_filter, elem_of_empty.
    intuition congruence.
Qed.

End Selection.

(** ** The presets and the exclusion *)

(** C8.  Whatever the flags and the exclusion list, a model of the final
    selection has an id string that is not in the exclusion list. *)
Theorem excluded_models_never_selected (cat : Catalog) (o : Options)
    (s : gset ModelResource) (m : ModelResource) :
  selection cat o = Ok s → m ∈ s → id_string (id m) ∉ exclude o.
Proof.
  intros Hs Hm. apply (elem_of_selection cat o s m Hs) in Hm. by destruct Hm.
Qed.

Lemma excluded_models_never_selected_witness :
  ∃ s, selection sample_catalog (only_all ["checkpoint-sd15-a"]) = Ok s
       ∧ model_sd ∈ s
       ∧ id_string (id model_sd) ∉ exclude (only_all ["checkpoint-sd15-a"]).
Proof.
  destruct (selection_defined sample_catalog (only_all ["checkpoint-sd15-a"]))
    as [s Hs]; [vm_compute; lia | discriminate |].
  assert (Hm : model_sd ∈ s).
  { rewrite (elem_of_selection _ _ _ _ Hs).
    apply (bool_decide_unpack _). vm_compute. exact I. }
  exists s. split; [exact Hs |]. split; [exact Hm |].
  exact (excluded_models_never_selected _ _ _ _ Hs Hm).
Defined.

Lemma versions_minimal_alone (o : Options) :
  minimal_alone o → versions_of o = [Arch.all; Arch.sd15].
Proof.
  intros (Hm & Hr & Ha & Hx & Hf & Hi & _). unfold versions_of.
  rewrite Hm, Hr, Ha, Hx, Hf, Hi, orb_true_r. reflexivity.
Qed.

Lemma picked_minimal_alone (cat : Catalog) (o : Options) (m m0 : ModelResource)
    (dc : list ModelResource) :
  minimal_alone o →
  default_checkpoints cat = m0 :: dc →
  picked cat o m
  ↔ m = m0 ∨ (m ∈ required_models cat ∧ (arch m = Arch.all ∨ arch m = Arch.sd15)).
Proof.
  intros Halone Hdc.
  unfold picked, picked_rest. rewrite (versions_minimal_alone o Halone), Hdc.
  destruct Halone as (-> & -> & -> & _ & _ & _ & -> & -> & -> & -> & ->).
  simpl. rewrite !elem_of_cons, !elem_of_nil.
  intuition (try congruence).
Qed.

Lemma versions_enabled (o : Options) (a : Arch.t) :
  a ∈ versions_of o ↔ arch_enabled o a = true.
Proof.
  unfold versions_of, arch_enabled.
  destruct (sd15 o || minimal o || all o), (sdxl o || recommended o || all o),
    (flux o), (illu o || all o), a; simpl;
    rewrite ?elem_of_cons, ?elem_of_nil; intuition congruence.
Qed.

Lemma elem_of_kinds (k : ResourceKind.t) :
  k ∈ kinds
  ↔ k = ResourceKind.controlnet ∨ k = ResourceKind.ip_adapter
    ∨ k = ResourceKind.clip_vision.
Proof. unfold kinds. rewrite !elem_of_cons, elem_of_nil. tauto. Qed.

(** What the selection holds under [minimal] without explicit checkpoint,
    whatever the other flags. *)
Lemma picked_minimal (cat : Catalog) (o : Options) (m m0 : ModelResource)
    (dc : list ModelResource) :
  minimal o = true → preset_count o ≤ 1 → checkpoints o = [] →
  default_checkpoints cat = m0 :: dc →
  picked cat o m
  ↔ m = m0
    ∨ (m ∈ required_models cat ∧ arch_enabled o (arch m) = true)
    ∨ (upscalers o = true
       ∧ ((m ∈ required_models cat ∧ kind m = ResourceKind.upscaler)
          ∨ m ∈ upscale_models cat))
    ∨ (controlnet o = true ∧ m ∈ optional_models cat
       ∧ (kind m = ResourceKind.controlnet ∨ kind m = ResourceKind.ip_adapter
          ∨ kind m = ResourceKind.clip_vision)
       ∧ arch_enabled o (arch m) = true)
    ∨ (prefetch o = true ∧ m ∈ prefetch_models cat)
    ∨ (deprecated o = true ∧ m ∈ deprecated_models cat
       ∧ arch_enabled o (arch m) = true).
Proof.
  intros Hmin Hp Hck Hdc.
  assert (Hr : recommended o = false).
  { unfold preset_count in Hp. rewrite Hmin in Hp.
    destruct (recommended o); [simpl in Hp; lia | done]. }
  assert (Ha : all o = false).
  { unfold preset_count in Hp. rewrite Hmin, Hr in Hp.
    destruct (all o); [simpl in Hp; lia | done]. }
  unfold picked, picked_rest. rewrite !versions_enabled, elem_of_kinds.
  rewrite Hmin, Hr, Ha, Hck, Hdc, !orb_false_r. simpl. rewrite elem_of_nil.
  intuition congruence.
Qed.

(** C6, as amended.  Under [minimal], with at most one preset set, no
    explicit checkpoint and a catalog whose default-checkpoint list starts
    with [m0], whatever the other flags: the selection is defined; it
    holds [m0] and every required model tagged [all] or [sd15], unless
    excluded by id; it holds exactly [m0], the required models of the
    active tags and what the category flags add, minus the exclusions
    (under [minimal] alone: [m0] and the required models tagged [all] or
    [sd15]); and when no default checkpoint is also in another list of
    the catalog, [m0] is the one default checkpoint in it, if not
    excluded. *)
Theorem minimal_selects_first_checkpoint (cat : Catalog) (o : Options)
    (m0 : ModelResource) (dc : list ModelResource) :
  minimal o = true →
  preset_count o ≤ 1 →
  checkpoints o = [] →
  default_checkpoints cat = m0 :: dc →
  ∃ s, selection cat o = Ok s
       ∧ (id_string (id m0) ∉ exclude o → m0 ∈ s)
       ∧ (∀ m, m ∈ required_models cat → arch m = Arch.all ∨ arch m = Arch.sd15 →
               id_string (id m) ∉ exclude o → m ∈ s)
       ∧ (∀ m, m ∈ s
               ↔ (m = m0
                  ∨ (m ∈ required_models cat ∧ arch_enabled o (arch m) = true)
                  ∨ (upscalers o = true
                     ∧ ((m ∈ required_models cat ∧ kind m = ResourceKind.upscaler)
                        ∨ m ∈ upscale_models cat))
                  ∨ (controlnet o = true ∧ m ∈ optional_models cat
                     ∧ (kind m = ResourceKind.controlnet
                        ∨ kind m = ResourceKind.ip_adapter
                        ∨ kind m = ResourceKind.clip_vision)
                     ∧ arch_enabled o (arch m) = true)
                  ∨ (prefetch o = true ∧ m ∈ prefetch_models cat)
                  ∨ (deprecated o = true ∧ m ∈ deprecated_models cat
                     ∧ arch_enabled o (arch m) = true))
                 ∧ id_string (id m) ∉ exclude o)
       ∧ (minimal_alone o →
          ∀ m, m ∈ s
               ↔ (m = m0
                  ∨ (m ∈ required_models cat
                     ∧ (arch m = Arch.all ∨ arch m = Arch.sd15)))
                 ∧ id_string (id m) ∉ exclude o)
       ∧ ((∀ d, d ∈ default_checkpoints cat →
                (d ∉ required_models cat) ∧ (d ∉ upscale_models cat)
                ∧ (d ∉ optional_models cat) ∧ (d ∉ prefetch_models cat)
                ∧ (d ∉ deprecated_models cat)) →
          ∀ m, (m ∈ s ∧ m ∈ default_checkpoints cat)
               ↔ (m = m0 ∧ id_string (id m0) ∉ exclude o)).
Proof.
  intros Hmin Hp Hck Hdc.
  destruct (selection_defined cat o Hp) as [s Hs].
  { rewrite Hdc. done. }
  pose proof (λ m, picked_minimal cat o m m0 dc Hmin Hp Hck Hdc) as Hpick.
  assert (Hin : ∀ m, m ∈ s ↔ picked cat o m ∧ id_string (id m) ∉ exclude o).
  { intros m. exact (elem_of_selection cat o s m Hs). }
  exists s. split; [exact Hs |].
  split; [| split; [| split; [| split]]].
  - intros Hex. rewrite Hin, Hpick. split; [by left | exact Hex].
  - intros m Hreq Harch Hex. rewrite Hin, Hpick. split; [| exact Hex].
    right. left. split; [exact Hreq |].
    unfold arch_enabled. rewrite Hmin.
    destruct Harch as [-> | ->]; [done | by rewrite orb_true_r].
  - intros m. by rewrite Hin, Hpick.
  - intros Halone m. rewrite Hin.
    by rewrite (picked_minimal_alone cat o m m0 dc Halone Hdc).
  - intros Hdisj m. rewrite Hin, Hpick. split.
    + intros [[Hwhy Hex] Hm]. destruct (Hdisj m Hm) as (H1 & H2 & H3 & H4 & H5).
      destruct Hwhy as [-> | Hwhy]; [done |]. exfalso. intuition.
    + intros [-> Hex]. split; [split; [by left | exact Hex] |]. rewrite Hdc. by left.
Qed.

Lemma minimal_selects_first_checkpoint_witness :
  minimal minimal_and_more = true
  ∧ preset_count minimal_and_more ≤ 1
  ∧ checkpoints minimal_and_more = []
  ∧ default_checkpoints full_catalog = [model_a; model_xl]
  ∧ ∃ s, selection full_catalog minimal_and_more = Ok s
         ∧ model_a ∈ s ∧ model_up ∈ s
         ∧ (model_xl ∉ s) ∧ (model_sd ∉ s) ∧ (model_cn ∉ s) ∧ (model_flux ∉ s).
Proof.
  assert (Hp : preset_count minimal_and_more ≤ 1) by (vm_compute; lia).
  split; [reflexivity |]. split; [exact Hp |]. split; [reflexivity |].
  split; [reflexivity |].
  destruct (minimal_selects_first_checkpoint full_catalog minimal_and_more
              model_a [model_xl] eq_refl Hp eq_refl eq_refl)
    as (s & Hs & _ & _ & Hin & _).
  exists s. split; [exact Hs |]. rewrite !Hin.
  repeat (split; [apply (bool_decide_unpack _); vm_compute; exact I |]).
  apply (bool_decide_unpack _); vm_compute; exact I.
Defined.

(** C6, counterexample.  Under [minimal] alone, with the id of the first
    default checkpoint in the exclusion list, the selection is defined and
    holds no default checkpoint at all. *)
Lemma minimal_with_first_checkpoint_excluded :
  ∃ s, selection sample_catalog (only_minimal ["checkpoint-sd15-a"]) = Ok s
       ∧ ∀ m, m ∈ default_checkpoints sample_catalog → m ∉ s.
Proof.
  destruct (selection_defined sample_catalog (only_minimal ["checkpoint-sd15-a"]))
    as [s Hs]; [vm_compute; lia | discriminate |].
  exists s. split; [exact Hs |]. intros m Hm.
  apply list_elem_of_singleton in Hm. subst m.
  rewrite (elem_of_selection _ _ _ _ Hs).
  apply (bool_decide_unpack _). vm_compute. exact I.
Qed.

(** ** The preset [all] *)

(** Under [all] the list of versions holds the wildcard, [sd15], [sdxl],
    [illu] and [illu_v]; [flux] is in it only with its own flag. *)
Lemma versions_all (o : Options) :
  all o = true →
  versions_of o
  = [Arch.all; Arch.sd15; Arch.sdxl]
    ++ (if flux o then [Arch.flux] else []) ++ [Arch.illu; Arch.illu_v].
Proof.
  intros Ha. unfold versions_of. rewrite Ha, !orb_true_r. reflexivity.
Qed.

Lemma versions_within_all (o : Options) (excluded : list string) (a : Arch.t) :
  flux o = false → a ∈ versions_of o → a ∈ versions_of (only_all excluded).
Proof.
  intros Hf. unfold versions_of. rewrite Hf. simpl.
  destruct (sd15 o || minimal o || all o), (sdxl o || recommended o || all o),
    (illu o || all o); simpl; rewrite !elem_of_cons, !elem_of_nil; tauto.
Qed.

(** What the preset [all] alone selects. *)
Lemma only_all_selection (cat : Catalog) (excluded : list string) :
  ∃ s, selection cat (only_all excluded) = Ok s
       ∧ ∀ m, m ∈ s
              ↔ (m ∈ default_checkpoints cat
                 ∨ (m ∈ required_models cat ∧ arch m ≠ Arch.flux)
                 ∨ (m ∈ required_models cat ∧ kind m = ResourceKind.upscaler)
                 ∨ m ∈ upscale_models cat
                 ∨ (m ∈ optional_models cat ∧ kind m ∈ kinds ∧ arch m ≠ Arch.flux)
                 ∨ m ∈ prefetch_models cat)
                ∧ id_string (id m) ∉ excluded.
Proof.
  destruct (selection_defined cat (only_all excluded)) as [s Hs];
    [vm_compute; lia | discriminate |].
  exists s. split; [exact Hs |]. intros m.
  rewrite (elem_of_selection _ _ _ _ Hs). apply and_iff_compat_r.
  unfold picked, picked_rest. simpl.
  assert (Hv : arch m ∈ versions_of (only_all excluded) ↔ arch m ≠ Arch.flux).
  { unfold versions_of. simpl. rewrite !elem_of_cons, elem_of_nil.
    destruct (arch m); intuition congruence. }
  rewrite Hv. intuition congruence.
Qed.

(** Without the flags [flux] and [deprecated], whatever a flag combination
    selects is selected by [all] alone (same exclusion list). *)
Lemma selection_within_all (cat : Catalog) (o : Options)
    (s s_all : gset ModelResource) :
  flux o = false → deprecated o = false →
  selection cat o = Ok s →
  selection cat (only_all (exclude o)) = Ok s_all →
  s ⊆ s_all.
Proof.
  intros Hf Hd Hs Hall m.
  rewrite (elem_of_selection _ _ _ _ Hs), (elem_of_selection _ _ _ _ Hall).
  intros [Hp Hex]. split; [| exact Hex].
  pose proof (versions_within_all o (exclude o) (arch m) Hf) as Hv.
  unfold picked, picked_rest in *. rewrite Hd in Hp. simpl.
  destruct Hp as [[H1 _] | [(_ & H1 & H2) | [[_ H1] | Hp]]].
  - left. auto.
  - right. left. auto.
  - left. split; [| by left]. destruct (default_checkpoints cat); [done |].
    injection H1 as ->. by left.
  - destruct Hp as [(_ & H1 & _) | [[_ H1] | [(_ & H1 & H2 & H3) | [[_ H1] | [? _]]]]].
    + left. auto.
    + do 3 right. right. left. auto.
    + do 3 right. right. right. left. auto.
    + do 3 right. right. right. right. left. auto.
    + discriminate.
Qed.

(** C2, the failing input.  Under [--all] alone the list of versions has
    no [flux], and on the sample catalog neither the required model of the
    Flux workload nor the deprecated model is selected, while the default
    checkpoint and the required SD 1.5 model are. *)
Theorem all_preset_omits_flux_and_deprecated :
  versions_of (only_all []) = [Arch.all; Arch.sd15; Arch.sdxl; Arch.illu; Arch.illu_v]
  ∧ (Arch.flux ∉ versions_of (only_all []))
  ∧ ∃ s, selection sample_catalog (only_all []) = Ok s
         ∧ (model_flux ∉ s) ∧ (model_old ∉ s) ∧ model_sd ∈ s ∧ model_a ∈ s.
Proof.
  split; [reflexivity |].
  split; [apply (bool_decide_unpack _); vm_compute; exact I |].
  destruct (selection_defined sample_catalog (only_all [])) as [s Hs];
    [vm_compute; lia | discriminate |].
  exists s. split; [exact Hs |]. rewrite !(elem_of_selection _ _ _ _ Hs).
  split; [| split; [| split]]; apply (bool_decide_unpack _); vm_compute; exact I.
Qed.

(** C3, the failing input.  The workloads [--sd15 --flux] select the
    required model of the Flux workload, [--all] does not: the selection
    under these flags is not within the selection under [all]. *)
Theorem flux_workload_not_within_all :
  ∃ s s_all,
    selection sample_catalog sd15_and_flux = Ok s
    ∧ selection sample_catalog (only_all []) = Ok s_all
    ∧ model_flux ∈ s ∧ (model_flux ∉ s_all) ∧ ¬ s ⊆ s_all.
Proof.
  destruct (selection_defined sample_catalog sd15_and_flux) as [s Hs];
    [vm_compute; lia | discriminate |].
  destruct (selection_defined sample_catalog (only_all [])) as [s_all Hall];
    [vm_compute; lia | discriminate |].
  assert (Hin : model_flux ∈ s).
  { rewrite (elem_of_selection _ _ _ _ Hs).
    apply (bool_decide_unpack _). vm_compute. exact I. }
  assert (Hout : model_flux ∉ s_all).
  { rewrite (elem_of_selection _ _ _ _ Hall).
    apply (bool_decide_unpack _). vm_compute. exact I. }
  exists s, s_all.
  split; [exact Hs |]. split; [exact Hall |]. split; [exact Hin |].
  split; [exact Hout |].
  intros Hsub. exact (Hout (Hsub model_flux Hin)).
Qed.

(** ** The bulk flag [--checkpoints] *)

Lemma cli_checkpoints_no_workload (cat : Catalog) (args : Args.t) :
  Args.sd15 args = false → Args.sdxl args = false →
  Args.flux args = false → Args.illu args = false →
  cli_checkpoints cat args = default [] (Args.checkpoint_list args).
Proof.
  intros H1 H2 H3 H4. unfold cli_checkpoints.
  rewrite H1, H2, H3, H4, !andb_false_r. reflexivity.
Qed.

(** C10.  With none of [--sd15], [--sdxl], [--flux], [--illu], the bulk
    flag [--checkpoints] changes nothing: the list of checkpoint ids is
    the list of the [--checkpoint] arguments (empty when there is none),
    the options passed to [main] are the same with the flag and without,
    and so are the selection and the whole run. *)
Theorem bulk_checkpoints_alone_selects_nothing (cat : Catalog) (args : Args.t) :
  Args.sd15 args = false → Args.sdxl args = false →
  Args.flux args = false → Args.illu args = false →
  cli_checkpoints cat (with_bulk true args) = default [] (Args.checkpoint_list args)
  ∧ (Args.checkpoint_list args = None → cli_checkpoints cat (with_bulk true args) = [])
  ∧ cli_options cat (with_bulk true args) = cli_options cat (with_bulk false args)
  ∧ selection cat (cli_options cat (with_bulk true args))
    = selection cat (cli_options cat (with_bulk false args))
  ∧ ∀ environ server,
      cli_main environ server cat (with_bulk true args)
      = cli_main environ server cat (with_bulk false args).
Proof.
  intros H1 H2 H3 H4.
  assert (Hl : ∀ b, cli_checkpoints cat (with_bulk b args)
                    = default [] (Args.checkpoint_list args)).
  { intros b. by rewrite cli_checkpoints_no_workload. }
  assert (Ho : cli_options cat (with_bulk true args)
               = cli_options cat (with_bulk false args)).
  { unfold cli_options. rewrite !Hl. reflexivity. }
  split; [apply Hl |]. split; [intros Hnone; by rewrite Hl, Hnone |].
  split; [exact Ho |]. split; [by rewrite Ho |].
  intros environ server. unfold cli_main. by rewrite Ho.
Qed.

Lemma bulk_checkpoints_alone_selects_nothing_witness :
  Args.sd15 sample_args = false ∧ Args.sdxl sample_args = false
  ∧ Args.flux sample_args = false ∧ Args.illu sample_args = false
  ∧ cli_checkpoints sample_catalog (with_bulk true sample_args) = []
  ∧ selection sample_catalog (cli_options sample_catalog (with_bulk true sample_args))
    = selection sample_catalog (cli_options sample_catalog (with_bulk false sample_args)).
Proof.
  do 4 (split; [reflexivity |]).
  destruct (bulk_checkpoints_alone_selects_nothing sample_catalog sample_args
              eq_refl eq_refl eq_refl eq_refl) as (_ & Hnil & _ & Hsel & _).
  split; [exact (Hnil eq_refl) | exact Hsel].
Defined.

(** * Further properties of the script *)

(** ** Invariants of the batch and of [main] *)

Section Invariants.

Variable environ : gmap string string.
Variable server : list string → string → Outcome Response.
Variables (destination : Path).

(** A property of the world kept by every [download] of a selected model
    and by printing is kept by the loop over the models. *)
Lemma fetch_all_keeps (I : World → Prop) (models : gset ModelResource)
    (verbose dry_run : bool) (retry_attempts : Z) (continue_on_error : bool) :
  (∀ model v v' o, model ∈ models → I v →
     download environ server model destination verbose dry_run v = (v', o) → I v') →
  (∀ v line, I v → I (printed v line)) →
  ∀ w w' o, I w →
    fetch_all environ server models destination verbose dry_run retry_attempts
      continue_on_error w = (w', o) →
    I w'.
Proof.
  intros Hd Hp w w' o Hw Hrun. unfold fetch_all in Hrun.
  eapply (for_each_keeps _ I); [| exact Hw | exact Hrun].
  intros m v v' o' Hm Hv Hstep. apply elem_of_sorted_by_name in Hm.
  assert (Hretry : ∀ v0, I v0 →
    download_with_retry environ server m destination verbose dry_run
      retry_attempts continue_on_error v0 = (v', o') → I v').
  { intros v0 Hv0. unfold download_with_retry.
    apply (retry_loop_keeps _ _ _ _ _ _ _ I); [| exact Hp | exact Hv0].
    intros a a' oa. by apply Hd. }
  destruct verbose; [apply (Hretry (printed v (ModelHeader (name m)))); auto |].
  by apply (Hretry v).
Qed.

(** [main] is the banner, the selection, the notice of an empty selection
    and the loop over the models. *)
Lemma main_run (cat : Catalog) (o : Options) (w w' : World) (out : Outcome unit) :
  main environ server cat destination o w = (w', out) →
  (∃ e, selection cat o = Raise e
        ∧ w' = printed w (Banner (version cat)) ∧ out = Raise e)
  ∨ (∃ models w0,
       selection cat o = Ok models
       ∧ fs w0 = fs w ∧ requests w0 = requests w
       ∧ fetch_all environ server models destination (verbose o || dry_run o)
           (dry_run o) (retry_attempts o) (continue_on_error o) w0 = (w', out)).
Proof.
  unfold main, mbind, M_bind, print, lift, when. cbv zeta.
  destruct (selection cat o) as [models|e].
  - intros Hrun. right. exists models.
    destruct (bool_decide (size models = 0)); cbn [mret M_ret] in Hrun;
      eexists; (split; [reflexivity |]); (split; [| split; [| exact Hrun]]);
      reflexivity.
  - intros [= <- <-]. left. by exists e.
Qed.

Lemma main_keeps (I : World → Prop) (cat : Catalog) (o : Options) :
  (∀ model v v' r, I v →
     download environ server model destination (verbose o || dry_run o) (dry_run o) v
     = (v', r) → I v') →
  (∀ v v', fs v' = fs v → requests v' = requests v → I v → I v') →
  ∀ w w' out, I w →
    main environ server cat destination o w = (w', out) → I w'.
Proof.
  intros Hd Hp w w' out Hw Hrun.
  apply main_run in Hrun as [(e & _ & -> & _) | (models & w0 & _ & Hfs & Hrq & Hrun)].
  - by apply (Hp w).
  - eapply (fetch_all_keeps I); [| | | exact Hrun].
    + intros model v v' r _. apply Hd.
    + intros v line. by apply Hp.
    + by apply (Hp w).
Qed.

End Invariants.

(** ** What a run does to the file system *)

Section Frame.

Variable environ : gmap string string.
Variable server : list string → string → Outcome Response.
Variables (destination : Path).

Lemma only_new_dirs_refl (f : gmap Path Node) : only_new_dirs f f.
Proof. intros q. by left. Qed.

Lemma only_new_dirs_trans (f g h : gmap Path Node) :
  only_new_dirs f g → only_new_dirs g h → only_new_dirs f h.
Proof.
  intros Hfg Hgh q. destruct (Hfg q) as [E1 | [E1 E1']], (Hgh q) as [E2 | [E2 E2']].
  - left. congruence.
  - right. split; congruence.
  - right. split; congruence.
  - congruence.
Qed.

(** When no directory to make is in the way as a file, [mkdir] only adds
    directories. *)
Lemma made_dirs_fresh (p : Path) (f : gmap Path Node) :
  existsb (λ d, is_file (f !! d)) (ancestors_and_self p) = false →
  only_new_dirs f (made_dirs p f).
Proof.
  intros Hno q. rewrite made_dirs_lookup.
  destruct (decide (q ∈ ancestors_and_self p)) as [Hin|Hnin]; [| by left].
  destruct (f !! q) as [[|c]|] eqn:Hq; [by left | | by right].
  exfalso. apply not_true_iff_false in Hno. apply Hno.
  apply existsb_exists. exists q. split; [by apply list_elem_of_In |].
  by rewrite Hq.
Qed.

(** With a file in the way of the directories the step of a missing file
    fails in [mkdir], before any request, leaving the file system alone. *)
Lemma download_file_mkdir_blocked (model : ModelResource) (verbose dry_run : bool)
    (file : ModelFile) (w : World) :
  fs w !! (destination </> path file) = None →
  existsb (λ d, is_file (fs w !! d))
    (ancestors_and_self (PurePath.parent (destination </> path file))) = true →
  ∃ w' e,
    download_file environ server model destination verbose dry_run file w = (w', Raise e)
    ∧ fs w' = fs w ∧ requests w' = requests w.
Proof.
  intros Habs Hblock.
  unfold download_file, mbind, M_bind, when, print, path_exists, mkdir_parents.
  destruct verbose; cbn [mret M_ret printed fs requests stdout];
    rewrite Habs; cbn [bool_decide decide_rel]; 
    rewrite (bool_decide_eq_false_2 _ (is_Some_None (A:=Node)));
    cbn [printed fs requests stdout]; rewrite Hblock; eauto.
Qed.

(** Outside the target and its temporary path a step changes nothing but
    for new directories. *)
Lemma download_file_frame (model : ModelResource) (verbose dry_run : bool)
    (file : ModelFile) (w w' : World) (o : Outcome unit) (q : Path) :
  download_file environ server model destination verbose dry_run file w = (w', o) →
  q ≠ destination </> path file →
  (PurePath.name (destination </> path file) ≠ EmptyString →
   q ≠ part_path (destination </> path file)) →
  fs w' !! q = fs w !! q ∨ (fs w !! q = None ∧ fs w' !! q = Some Dir).
Proof.
  intros Hrun Hqt Hqp.
  destruct (fs w !! (destination </> path file)) as [n|] eqn:Ht.
  { apply download_file_skips in Hrun as (_ & Hfs & _); [| by rewrite Ht].
    left. by rewrite Hfs. }
  destruct (existsb (λ d, is_file (fs w !! d))
              (ancestors_and_self (PurePath.parent (destination </> path file))))
    eqn:Hblock.
  { destruct (download_file_mkdir_blocked model verbose dry_run file w Ht Hblock)
      as (w1 & e & Hrun' & Hfs & _).
    rewrite Hrun' in Hrun. injection Hrun as <- _. left. by rewrite Hfs. }
  pose proof (made_dirs_fresh _ _ Hblock q) as Hfresh.
  apply download_file_run in Hrun.
  inversion Hrun;
    repeat match goal with H : fs w' = _ |- _ => rewrite H; clear H end;
    try (by left); try exact Hfresh.
  - rewrite lookup_insert_ne by (apply not_eq_sym; auto). exact Hfresh.
  - rewrite lookup_insert_ne by (apply not_eq_sym; auto). exact Hfresh.
  - rewrite lookup_insert_ne, lookup_delete_ne by (apply not_eq_sym; auto).
    exact Hfresh.
Qed.

(** A step never touches an existing file that is not named [*.part]. *)
Lemma download_file_keeps_file (model : ModelResource) (verbose dry_run : bool)
    (file : ModelFile) (w w' : World) (o : Outcome unit) (q : Path) (c : string) :
  PurePath.suffix q ≠ ".part" →
  download_file environ server model destination verbose dry_run file w = (w', o) →
  fs w !! q = Some (File c) → fs w' !! q = Some (File c).
Proof.
  intros Hsfx Hrun Hq.
  destruct (decide (q = destination </> path file)) as [->|Hne].
  - apply download_file_skips in Hrun as (_ & Hfs & _); [| by rewrite Hq].
    by rewrite Hfs.
  - destruct (download_file_frame _ _ _ _ _ _ _ q Hrun Hne) as [E | [E _]].
    + intros Hname Heq. by apply (part_path_neq (destination </> path file) q).
    + by rewrite E.
    + congruence.
Qed.

(** A dry run of a step requests nothing and only adds directories. *)
Lemma download_file_dry (model : ModelResource) (verbose : bool)
    (file : ModelFile) (w w' : World) (o : Outcome unit) :
  download_file environ server model destination verbose true file w = (w', o) →
  requests w' = requests w ∧ only_new_dirs (fs w) (fs w').
Proof.
  intros Hrun.
  split; [by apply (download_file_requests _ _ _ _ _ _ _ _ _ _ Hrun) |].
  destruct (fs w !! (destination </> path file)) as [n|] eqn:Ht.
  { apply download_file_skips in Hrun as (_ & Hfs & _); [| by rewrite Ht].
    rewrite Hfs. apply only_new_dirs_refl. }
  destruct (existsb (λ d, is_file (fs w !! d))
              (ancestors_and_self (PurePath.parent (destination </> path file))))
    eqn:Hblock.
  { destruct (download_file_mkdir_blocked model verbose true file w Ht Hblock)
      as (w1 & e & Hrun' & Hfs & _).
    rewrite Hrun' in Hrun. injection Hrun as <- _. rewrite Hfs.
    apply only_new_dirs_refl. }
  apply download_file_run in Hrun.
  inversion Hrun;
    repeat match goal with H : fs w' = _ |- _ => rewrite H; clear H end;
    try discriminate; try apply only_new_dirs_refl.
  by apply made_dirs_fresh.
Qed.

End Frame.

(** X1.  A dry run of [main] issues no request, whatever the flags, the
    catalog and the server; in the file system every path is as it was or
    is a directory that was not there before: no file is created, changed
    or removed. *)
Theorem dry_run_requests_nothing (environ : gmap string string)
    (server : list string → string → Outcome Response)
    (cat : Catalog) (destination : Path) (o : Options)
    (w w' : World) (out : Outcome unit) :
  dry_run o = true →
  main environ server cat destination o w = (w', out) →
  requests w' = requests w ∧ only_new_dirs (fs w) (fs w').
Proof.
  intros Hdry Hrun.
  apply (main_keeps environ server destination
           (λ v, requests v = requests w ∧ only_new_dirs (fs w) (fs v)) cat o)
    with (w := w) (out := out); [| | | exact Hrun].
  - intros model v v' r Hv. rewrite Hdry. unfold download.
    apply (for_each_keeps _
             (λ u, requests u = requests w ∧ only_new_dirs (fs w) (fs u)));
      [| exact Hv].
    intros f u u' r' _ [Hrq Hfs] Hstep.
    apply download_file_dry in Hstep as [Hrq' Hfs']. split; [congruence |].
    by apply (only_new_dirs_trans _ (fs u)).
  - intros v v' Hfs Hrq [Hrq' Hfs']. rewrite Hfs, Hrq. done.
  - split; [done | apply only_new_dirs_refl].
Qed.

Lemma dry_run_requests_nothing_witness :
  dry_run minimal_dry = true
  ∧ requests (main ∅ good_server sample_catalog tmp_models minimal_dry empty_world).1
    = [].
Proof.
  split; [reflexivity |].
  exact (proj1 (dry_run_requests_nothing ∅ good_server sample_catalog tmp_models
                  minimal_dry empty_world _ _ eq_refl (surjective_pairing _))).
Defined.

(** X2.  Whatever [main] does, and however it ends, a file that exists
    before the run and is not named [*.part] is there afterwards with the
    same content: the script never overwrites or removes it. *)
Theorem existing_files_untouched (environ : gmap string string)
    (server : list string → string → Outcome Response)
    (cat : Catalog) (destination : Path) (o : Options)
    (w w' : World) (out : Outcome unit) (q : Path) (content : string) :
  PurePath.suffix q ≠ ".part" →
  fs w !! q = Some (File content) →
  main environ server cat destination o w = (w', out) →
  fs w' !! q = Some (File content).
Proof.
  intros Hsfx Hq Hrun.
  apply (main_keeps environ server destination
           (λ v, fs v !! q = Some (File content)) cat o)
    with (w := w) (out := out); [| | exact Hq | exact Hrun].
  - intros model v v' r Hv. unfold download.
    apply (for_each_keeps _ (λ u, fs u !! q = Some (File content))); [| exact Hv].
    intros f u u' r' _ Hu Hstep. by eapply download_file_keeps_file.
  - intros v v' Hfs _ Hv. by rewrite Hfs.
Qed.

Lemma existing_files_untouched_witness :
  PurePath.suffix (tmp_models </> path file_a) ≠ ".part"
  ∧ fs world_a !! (tmp_models </> path file_a) = Some (File "abcd")
  ∧ fs (main ∅ broken_server sample_catalog tmp_models (only_all []) world_a).1
      !! (tmp_models </> path file_a) = Some (File "abcd").
Proof.
  assert (Hsfx : PurePath.suffix (tmp_models </> path file_a) ≠ ".part")
    by (vm_compute; discriminate).
  assert (Hq : fs world_a !! (tmp_models </> path file_a) = Some (File "abcd"))
    by (vm_compute; reflexivity).
  split; [exact Hsfx |]. split; [exact Hq |].
  exact (existing_files_untouched ∅ broken_server sample_catalog tmp_models
           (only_all []) world_a _ _ _ _ Hsfx Hq (surjective_pairing _)).
Defined.

(** ** Completion and the second run *)



(** X4.  Idempotence of the fetch step.  After a fetch step that returned
    normally (no dry run, no [continue_on_error], no target named
    [*.part]), a second fetch step over the same models, in any mode,
    issues no request and leaves the file system as it is. *)
Theorem second_fetch_requests_nothing (environ : gmap string string)
    (server : list string → string → Outcome Response)
    (models : gset ModelResource) (destination : Path) (verbose : bool)
    (retry_attempts : Z) (w w1 w2 : World) (o : Outcome unit)
    (dry_run' continue' : bool) :
  (∀ m f, m ∈ models → f ∈ files m →
          PurePath.suffix (destination </> path f) ≠ ".part") →
  fetch_all environ server models destination verbose false retry_attempts false w
  = (w1, Ok tt) →
  fetch_all environ server models destination verbose dry_run' retry_attempts
    continue' w1 = (w2, o) →
  requests w2 = requests w1 ∧ fs w2 = fs w1.
Proof. apply fetch_all_second_run. Qed.

Lemma first_fetch_of_model_a :
  (fetch_all ∅ good_server {[ model_a ]} tmp_models false false 5 false empty_world).2
  = Ok tt.
Proof.
  unfold fetch_all, sorted_by_name. rewrite elements_singleton. reflexivity.
Qed.

Lemma second_fetch_requests_nothing_witness :
  (∀ m f, m ∈ ({[ model_a ]} : gset ModelResource) → f ∈ files m →
          PurePath.suffix (tmp_models </> path f) ≠ ".part")
  ∧ (fetch_all ∅ good_server {[ model_a ]} tmp_models false false 5 false
       empty_world).2 = Ok tt
  ∧ requests
      (fetch_all ∅ good_server {[ model_a ]} tmp_models false false 5 false
         (fetch_all ∅ good_server {[ model_a ]} tmp_models false false 5 false
            empty_world).1).1
    = requests
        (fetch_all ∅ good_server {[ model_a ]} tmp_models false false 5 false
           empty_world).1.
Proof.
  assert (Hsfx : ∀ m f, m ∈ ({[ model_a ]} : gset ModelResource) → f ∈ files m →
                        PurePath.suffix (tmp_models </> path f) ≠ ".part").
  { intros m f Hm Hf. apply elem_of_singleton in Hm. subst m.
    apply list_elem_of_singleton in Hf. subst f. vm_compute. discriminate. }
  assert (Hfirst :
    fetch_all ∅ good_server {[ model_a ]} tmp_models false false 5 false empty_world
    = ((fetch_all ∅ good_server {[ model_a ]} tmp_models false false 5 false
          empty_world).1, Ok tt)).
  { rewrite (surjective_pairing (fetch_all _ _ _ _ _ _ _ _ _)) at 1.
    f_equal. }
  split; [exact Hsfx |]. split; [apply first_fetch_of_model_a |].
  exact (proj1 (second_fetch_requests_nothing ∅ good_server {[ model_a ]} tmp_models
                  false 5 empty_world _ _ _ false false Hsfx Hfirst
                  (surjective_pairing _))).
Defined.

(** ** The requests of a model *)

Section Requests.

Variable environ : gmap string string.
Variable server : list string → string → Outcome Response.
Variables (model : ModelResource) (destination : Path) (verbose dry_run : bool).

(** The requests of a loop over files: mapped URLs of these files, in
    their order, each at most once. *)
Lemma for_each_file_requests (l : list ModelFile) :
  ∀ w w' o,
    for_each (download_file environ server model destination verbose dry_run) l w
    = (w', o) →
    ∃ rs, requests w' = requests w ++ rs
          ∧ sublist rs (map (λ f, _map_url environ (url f)) l).
Proof.
  induction l as [|f l IH]; intros w w' o Hrun.
  - injection Hrun as <- _. exists []. by rewrite app_nil_r.
  - rewrite for_each_cons in Hrun.
    destruct (download_file environ server model destination verbose dry_run f w)
      as [w1 [[]|e]] eqn:Hf.
    + apply download_file_requests in Hf as [_ Hf].
      destruct (IH _ _ _ Hrun) as (rs & Hrs & Hsub).
      destruct Hf as [Hf | Hf]; rewrite Hf in Hrs.
      * exists rs. split; [done |]. by apply sublist_cons.
      * exists (_map_url environ (url f) :: rs).
        split; [by rewrite Hrs, <- app_assoc |]. by apply sublist_skip.
    + injection Hrun as <- _.
      apply download_file_requests in Hf as [_ [Hf | Hf]].
      * exists []. split; [by rewrite app_nil_r |]. apply sublist_nil_l.
      * exists [_map_url environ (url f)]. split; [done |].
        apply sublist_skip, sublist_nil_l.
Qed.

(** The requests of the retry loop: at most one per file and attempt. *)
Lemma retry_loop_requests (retry_attempts : Z) (continue_on_error : bool)
    (attempts : list nat) :
  ∀ w w' o,
    retry_loop environ server model destination verbose dry_run retry_attempts
      continue_on_error attempts w = (w', o) →
    ∃ rs, requests w' = requests w ++ rs
          ∧ length rs ≤ length attempts * length (files model)
          ∧ ∀ u, u ∈ rs → u ∈ mapped_urls environ model.
Proof.
  induction attempts as [|a attempts IH]; intros w w' o Hrun.
  - rewrite retry_loop_exhausted in Hrun. injection Hrun as <- _.
    exists []. rewrite app_nil_r. split; [done |]. split; [simpl; lia |].
    intros u Hu. by apply not_elem_of_nil in Hu.
  - destruct (download environ server model destination verbose dry_run w)
      as [w1 r] eqn:Hd.
    destruct (for_each_file_requests _ _ _ _ Hd) as (rs1 & Hrs1 & Hsub1).
    assert (Hlen1 : length rs1 ≤ length (files model)).
    { apply sublist_length in Hsub1. by rewrite length_map in Hsub1. }
    assert (Hin1 : ∀ u, u ∈ rs1 → u ∈ mapped_urls environ model).
    { intros u Hu. unfold mapped_urls. by eapply elem_of_sublist. }
    destruct r as [[]|e].
    + rewrite (retry_loop_ok _ _ _ _ _ _ _ _ _ _ _ _ Hd) in Hrun.
      injection Hrun as <- _. exists rs1. split; [done |]. split; [simpl; lia | done].
    + destruct continue_on_error.
      * rewrite (retry_loop_continues _ _ _ _ _ _ _ _ _ _ _ _ Hd) in Hrun.
        destruct (IH _ _ _ Hrun) as (rs2 & Hrs2 & Hlen2 & Hin2).
        exists (rs1 ++ rs2). split; [| split].
        -- rewrite Hrs2. cbn [printed requests]. by rewrite Hrs1, app_assoc.
        -- rewrite length_app. simpl. lia.
        -- intros u Hu. apply elem_of_app in Hu as [Hu | Hu]; auto.
      * rewrite (retry_loop_reraises _ _ _ _ _ _ _ _ _ _ _ _ Hd) in Hrun.
        injection Hrun as <- _. exists rs1. split; [done |].
        split; [simpl; lia | done].
Qed.

End Requests.

(** X5.  [download] only adds requests to the log, and the ones it adds are
    mapped URLs of the model's files, in the order of the files, at most
    one per file: no other URL is ever requested, none twice. *)
Theorem download_requests_file_urls (environ : gmap string string)
    (server : list string → string → Outcome Response)
    (model : ModelResource) (destination : Path) (verbose dry_run : bool)
    (w w' : World) (o : Outcome unit) :
  download environ server model destination verbose dry_run w = (w', o) →
  ∃ rs, requests w' = requests w ++ rs
        ∧ sublist rs (mapped_urls environ model)
        ∧ length rs ≤ length (files model).
Proof.
  intros Hrun. unfold download in Hrun.
  destruct (for_each_file_requests _ _ _ _ _ _ _ _ _ _ Hrun) as (rs & Hrs & Hsub).
  exists rs. split; [done |]. split; [done |].
  apply sublist_length in Hsub. by rewrite length_map in Hsub.
Qed.

Lemma download_requests_file_urls_witness :
  requests (download ∅ good_server model_a tmp_models false false empty_world).1
  = [url file_a].
Proof.
  destruct (download_requests_file_urls ∅ good_server model_a tmp_models false false
              empty_world _ _ (surjective_pairing _)) as (rs & Hrs & _ & _).
  rewrite Hrs. apply (inj (app [])). rewrite <- Hrs. vm_compute. reflexivity.
Defined.

(** X6.  Retry bound.  [download_with_retry] issues at most
    [retry_attempts] times the number of files of the model requests (none
    for a count below one), each for a mapped URL of one of the files. *)
Theorem download_with_retry_request_bound (environ : gmap string string)
    (server : list string → string → Outcome Response)
    (model : ModelResource) (destination : Path) (verbose dry_run : bool)
    (retry_attempts : Z) (continue_on_error : bool)
    (w w' : World) (o : Outcome unit) :
  download_with_retry environ server model destination verbose dry_run
    retry_attempts continue_on_error w = (w', o) →
  ∃ rs, requests w' = requests w ++ rs
        ∧ length rs ≤ Z.to_nat retry_attempts * length (files model)
        ∧ ∀ u, u ∈ rs → u ∈ mapped_urls environ model.
Proof.
  intros Hrun. unfold download_with_retry in Hrun.
  destruct (retry_loop_requests _ _ _ _ _ _ _ _ _ _ _ _ Hrun) as (rs & Hrs & Hlen & Hin).
  exists rs. rewrite length_seq in Hlen. done.
Qed.

Lemma download_with_retry_request_bound_witness :
  length (requests (download_with_retry ∅ broken_server model_a tmp_models false false
                      3 true empty_world).1) ≤ 3.
Proof.
  destruct (download_with_retry_request_bound ∅ broken_server model_a tmp_models
              false false 3 true empty_world _ _ (surjective_pairing _))
    as (rs & Hrs & Hlen & _).
  rewrite Hrs. simpl in *. lia.
Defined.

(** ** The retry wrapper: attempts and errors *)

(** X7.  With a retry count of zero or less no attempt is made: the world
    is left as it is, nothing is requested, and the wrapper raises its
    [RuntimeError] ("failed after N attempts") unless [continue_on_error]
    is set, in which case it returns normally although nothing was
    downloaded. *)
Theorem no_attempt_for_nonpositive_count (environ : gmap string string)
    (server : list string → string → Outcome Response)
    (model : ModelResource) (destination : Path) (verbose dry_run : bool)
    (retry_attempts : Z) (w : World) :
  (retry_attempts ≤ 0)%Z →
  download_with_retry environ server model destination verbose dry_run
    retry_attempts false w
  = (w, Raise (RuntimeError (name model) retry_attempts))
  ∧ download_with_retry environ server model destination verbose dry_run
      retry_attempts true w
    = (w, Ok tt).
Proof.
  intros Hn. split.
  - by rewrite download_with_retry_no_attempt.
  - by rewrite download_with_retry_no_attempt.
Qed.

Lemma no_attempt_for_nonpositive_count_witness :
  (0 ≤ 0)%Z
  ∧ download_with_retry ∅ good_server model_a tmp_models false false 0 false empty_world
    = (empty_world, Raise (RuntimeError "Model A" 0)).
Proof.
  split; [lia |].
  exact (proj1 (no_attempt_for_nonpositive_count ∅ good_server model_a tmp_models
                  false false 0 empty_world (Z.le_refl 0))).
Defined.

(** X8.  With [continue_on_error] the only exception [main] can end in is
    the one of the selection (conflicting presets, or [minimal] on a
    catalog without default checkpoint): no failed download stops the
    batch. *)
Theorem continue_on_error_never_halts (environ : gmap string string)
    (server : list string → string → Outcome Response)
    (cat : Catalog) (destination : Path) (o : Options)
    (w w' : World) (out : Outcome unit) :
  continue_on_error o = true →
  main environ server cat destination o w = (w', out) →
  match selection cat o with
  | Ok _ => out = Ok tt
  | Raise e => out = Raise e
  end.
Proof.
  intros Hc Hrun.
  apply main_run in Hrun as [(e & -> & _ & ->) | (models & w0 & -> & _ & _ & Hrun)];
    [reflexivity |].
  rewrite Hc in Hrun. by eapply fetch_all_continue_ok.
Qed.

(** X9.  With [continue_on_error], [k] failed attempts followed by an
    attempt that succeeds make the wrapper return normally whenever at
    least [k + 1] attempts are allowed; the world is the one the
    successful attempt leaves. *)
Theorem retry_succeeds_after_failures (environ : gmap string string)
    (server : list string → string → Outcome Response)
    (model : ModelResource) (destination : Path) (verbose dry_run : bool)
    (k : nat) (retry_attempts : Z) (w w1 w2 : World) :
  (Z.of_nat k < retry_attempts)%Z →
  failing_attempts environ server model destination verbose dry_run 0 k w w1 →
  download environ server model destination verbose dry_run w1 = (w2, Ok tt) →
  download_with_retry environ server model destination verbose dry_run
    retry_attempts true w = (w2, Ok tt).
Proof.
  intros Hn Hfail Hok. unfold download_with_retry.
  replace (Z.to_nat retry_attempts) with (k + S (Z.to_nat retry_attempts - S k)) by lia.
  rewrite seq_app. cbn [seq].
  rewrite (retry_loop_after_failures _ _ _ _ _ _ _ _ _ _ _ _ Hfail).
  by apply retry_loop_ok.
Qed.

(** X10.  Without [continue_on_error] the wrapper makes exactly one
    attempt, whatever count of one or more is allowed: it returns what
    [download] returns, and an exception of [download] is printed with
    attempt number 0 and raised again. *)
Theorem single_attempt_without_continue (environ : gmap string string)
    (server : list string → string → Outcome Response)
    (model : ModelResource) (destination : Path) (verbose dry_run : bool)
    (retry_attempts : Z) (w w1 : World) (r : Outcome unit) :
  (1 ≤ retry_attempts)%Z →
  download environ server model destination verbose dry_run w = (w1, r) →
  download_with_retry environ server model destination verbose dry_run
    retry_attempts false w
  = match r with
    | Ok _ => (w1, Ok tt)
    | Raise e => (printed w1 (ErrorDownloading (name model) 0 e), Raise e)
    end.
Proof.
  intros Hn Hd. rewrite download_with_retry_single_attempt by done. by rewrite Hd.
Qed.

Lemma single_attempt_without_continue_witness :
  (1 ≤ 5)%Z
  ∧ requests (download_with_retry ∅ broken_server model_a tmp_models false false 5
                false empty_world).1 = [url file_a].
Proof.
  split; [lia |].
  rewrite (single_attempt_without_continue ∅ broken_server model_a tmp_models false
             false 5 empty_world _ _ ltac:(lia) (surjective_pairing _)).
  vm_compute. reflexivity.
Defined.

Lemma continue_on_error_never_halts_witness :
  continue_on_error all_continue = true
  ∧ (main ∅ broken_server sample_catalog tmp_models all_continue empty_world).2 = Ok tt.
Proof.
  split; [reflexivity |].
  pose proof (continue_on_error_never_halts ∅ broken_server sample_catalog tmp_models
                all_continue empty_world _ _ eq_refl (surjective_pairing _)) as H.
  destruct (selection_defined sample_catalog all_continue) as [s Hs];
    [vm_compute; lia | discriminate |].
  rewrite Hs in H. exact H.
Defined.

Lemma retry_succeeds_after_failures_witness :
  (Z.of_nat 1 < 2)%Z
  ∧ (download_with_retry ∅ flaky_server model_a tmp_models false false 2 true
       empty_world).2 = Ok tt.
Proof.
  split; [lia |].
  assert (Hfail : failing_attempts ∅ flaky_server model_a tmp_models false false 0 1
                    empty_world
                    (printed (download ∅ flaky_server model_a tmp_models false false
                                empty_world).1
                       (ErrorDownloading (name model_a) 0 (ClientResponseError 503)))).
  { eapply failing_next; [| apply failing_none].
    rewrite (surjective_pairing (download _ _ _ _ _ _ _)) at 1. f_equal. }
  rewrite (retry_succeeds_after_failures ∅ flaky_server model_a tmp_models false false
             1 2 empty_world _ _ ltac:(lia) Hfail (surjective_pairing _)).
  vm_compute. reflexivity.
Defined.

(** ** The selection: errors, rules, bounds *)

Lemma selection_ok_inv (cat : Catalog) (o : Options) (s : gset ModelResource) :
  selection cat o = Ok s →
  preset_count o ≤ 1 ∧ (minimal o = true → default_checkpoints cat ≠ []).
Proof.
  intros Hs. unfold selection in Hs.
  destruct (preset_count o <=? 1) eqn:Hp; [| discriminate].
  apply Nat.leb_le in Hp. split; [exact Hp |].
  intros Hmin Hdc. unfold select_models, add_first_checkpoint in Hs.
  rewrite Hmin, Hdc in Hs. discriminate.
Qed.

(** X11.  The selection is defined exactly when at most one preset is set
    and [minimal] does not meet an empty list of default checkpoints; it
    raises the assertion error for two or more presets, and the index
    error of [default_checkpoints[0]] for [minimal] on an empty list. *)
Theorem selection_defined_iff (cat : Catalog) (o : Options) :
  ((∃ s, selection cat o = Ok s)
   ↔ preset_count o ≤ 1 ∧ (minimal o = true → default_checkpoints cat ≠ []))
  ∧ (1 < preset_count o → ∃ msg, selection cat o = Raise (AssertionError msg))
  ∧ (preset_count o ≤ 1 → minimal o = true → default_checkpoints cat = [] →
     ∃ msg, selection cat o = Raise (IndexError msg)).
Proof.
  split; [split |].
  - intros [s Hs]. by eapply selection_ok_inv.
  - intros [Hp Hdc]. by apply selection_defined.
  - split.
    + intros Hp. unfold selection.
      replace (preset_count o <=? 1) with false by (symmetry; apply Nat.leb_gt; lia).
      by eexists.
    + intros Hp Hmin Hdc. unfold selection.
      replace (preset_count o <=? 1) with true by (symmetry; by apply Nat.leb_le).
      unfold select_models, add_first_checkpoint. rewrite Hmin, Hdc. by eexists.
Qed.

(** X12.  When two presets are set, or [minimal] meets a catalog without
    default checkpoints, [main] prints its banner and raises the exception
    of the selection: nothing is requested and the file system is not
    touched. *)
Theorem main_fails_before_any_download (environ : gmap string string)
    (server : list string → string → Outcome Response)
    (cat : Catalog) (destination : Path) (o : Options) (w : World) :
  1 < preset_count o ∨ (minimal o = true ∧ default_checkpoints cat = []) →
  ∃ e, main environ server cat destination o w
       = (printed w (Banner (version cat)), Raise e)
       ∧ selection cat o = Raise e.
Proof.
  intros Hbad.
  assert (Hsel : ∃ e, selection cat o = Raise e).
  { destruct (selection cat o) as [s|e] eqn:Hs; [| by eexists].
    exfalso. apply selection_ok_inv in Hs as [Hp Hdc].
    destruct Hbad as [Hbad | [Hmin Hnil]]; [lia | by apply Hdc]. }
  destruct Hsel as [e He]. exists e. split; [| exact He].
  unfold main, mbind, M_bind, print, lift. by rewrite He.
Qed.

Lemma main_fails_before_any_download_witness :
  1 < preset_count two_presets
  ∧ requests (main ∅ good_server sample_catalog tmp_models two_presets empty_world).1
    = []
  ∧ fs (main ∅ good_server sample_catalog tmp_models two_presets empty_world).1 = ∅.
Proof.
  assert (Hp : 1 < preset_count two_presets) by (vm_compute; lia).
  split; [exact Hp |].
  destruct (main_fails_before_any_download ∅ good_server sample_catalog tmp_models
              two_presets empty_world (or_introl Hp)) as (e & -> & _).
  split; reflexivity.
Defined.

(** X13.  With none of [minimal], [recommended], [all], [sd15], [sdxl],
    the category flags and explicit checkpoints, the selection is empty,
    also when [--flux] or [--illu] is given: these two workload flags
    select nothing by themselves.  [main] then prints the banner and the
    notice that no model is selected, requests nothing and returns
    normally. *)
Theorem nothing_selected_without_selecting_flag (environ : gmap string string)
    (server : list string → string → Outcome Response)
    (cat : Catalog) (destination : Path) (o : Options) (w : World) :
  selects_nothing o →
  selection cat o = Ok ∅
  ∧ main environ server cat destination o w
    = (printed (printed w (Banner (version cat))) NoModelsSelected, Ok tt).
Proof.
  intros Hnone.
  assert (Hsel : selection cat o = Ok ∅).
  { destruct (selection_defined cat o) as [s Hs].
    { unfold preset_count. destruct Hnone as (-> & -> & -> & _). simpl. lia. }
    { destruct Hnone as (-> & _). discriminate. }
    rewrite Hs. f_equal. apply elem_of_equiv_empty_L. intros m.
    rewrite (elem_of_selection _ _ _ _ Hs). intros [Hp _].
    unfold picked, picked_rest in Hp.
    destruct Hnone as (Hm & Hr & Ha & H15 & Hxl & Hu & Hc & Hpf & Hd & Hck).
    rewrite Hm, Hr, Ha, H15, Hxl, Hu, Hc, Hpf, Hd, Hck in Hp. simpl in Hp.
    rewrite elem_of_nil in Hp. intuition congruence. }
  split; [exact Hsel |].
  unfold main, mbind, M_bind, print, lift, when. rewrite Hsel.
  rewrite size_empty. cbn [bool_decide decide_rel]. 
  rewrite bool_decide_eq_true_2 by reflexivity.
  unfold fetch_all, sorted_by_name. rewrite elements_empty. reflexivity.
Qed.

Lemma nothing_selected_without_selecting_flag_witness :
  selects_nothing only_flux
  ∧ selection sample_catalog only_flux = Ok ∅
  ∧ requests (main ∅ good_server sample_catalog tmp_models only_flux empty_world).1 = [].
Proof.
  assert (H : selects_nothing only_flux) by (repeat split).
  split; [exact H |].
  destruct (nothing_selected_without_selecting_flag ∅ good_server sample_catalog
              tmp_models only_flux empty_world H) as [Hsel Hmain].
  split; [exact Hsel |]. rewrite Hmain. reflexivity.
Defined.

Lemma selection_defined_iff_witness :
  1 < preset_count two_presets
  ∧ ∃ msg, selection sample_catalog two_presets = Raise (AssertionError msg).
Proof.
  assert (Hp : 1 < preset_count two_presets) by (vm_compute; lia).
  split; [exact Hp |].
  exact (proj1 (proj2 (selection_defined_iff sample_catalog two_presets)) Hp).
Defined.

Lemma versions_within_everything (o : Options) (excluded : list string) (a : Arch.t) :
  a ∈ versions_of (everything excluded).
Proof.
  unfold versions_of. simpl. rewrite !elem_of_cons. destruct a; tauto.
Qed.

(** X15.  The flags [--all --flux --deprecated] together select the most:
    whatever any flag combination selects is selected under them (same
    exclusion list). *)
Theorem selection_within_everything (cat : Catalog) (o : Options)
    (s s_max : gset ModelResource) :
  selection cat o = Ok s →
  selection cat (everything (exclude o)) = Ok s_max →
  s ⊆ s_max.
Proof.
  intros Hs Hmax m.
  rewrite (elem_of_selection _ _ _ _ Hs), (elem_of_selection _ _ _ _ Hmax).
  intros [Hp Hex]. split; [| exact Hex].
  pose proof (versions_within_everything o (exclude o) (arch m)) as Hv.
  unfold picked, picked_rest in *. simpl.
  destruct Hp as [[H1 _] | [(_ & H1 & H2) | [[_ H1] | Hp]]].
  - left. auto.
  - right. left. auto.
  - left. split; [| by left]. destruct (default_checkpoints cat); [done |].
    injection H1 as ->. by left.
  - destruct Hp as [(_ & H1 & _) | [[_ H1] | [(_ & H1 & H2 & H3) | [[_ H1] | (_ & H1 & _)]]]].
    + left. auto.
    + do 3 right. right. left. auto.
    + do 3 right. right. right. left. auto.
    + do 3 right. right. right. right. left. auto.
    + do 3 right. right. right. right. right. auto.
Qed.

Lemma selection_within_everything_witness :
  ∃ s s_max,
    selection sample_catalog sd15_and_flux = Ok s
    ∧ selection sample_catalog (everything (exclude sd15_and_flux)) = Ok s_max
    ∧ s ⊆ s_max.
Proof.
  destruct (selection_defined sample_catalog sd15_and_flux) as [s Hs];
    [vm_compute; lia | discriminate |].
  destruct (selection_defined sample_catalog (everything (exclude sd15_and_flux)))
    as [s_max Hmax]; [vm_compute; lia | discriminate |].
  exists s, s_max. split; [exact Hs |]. split; [exact Hmax |].
  exact (selection_within_everything sample_catalog sd15_and_flux s s_max Hs Hmax).
Defined.

(** X16.  Whatever a flag combination without [--flux] and [--deprecated]
    selects is selected under [--all] alone (same exclusion list). *)
Theorem selection_within_all_preset (cat : Catalog) (o : Options)
    (s s_all : gset ModelResource) :
  flux o = false → deprecated o = false →
  selection cat o = Ok s →
  selection cat (only_all (exclude o)) = Ok s_all →
  s ⊆ s_all.
Proof. intros Hf Hd Hs Hall. by apply (selection_within_all cat o). Qed.

Lemma selection_within_all_preset_witness :
  flux (only_minimal []) = false ∧ deprecated (only_minimal []) = false
  ∧ ∃ s s_all,
      selection sample_catalog (only_minimal []) = Ok s
      ∧ selection sample_catalog (only_all (exclude (only_minimal []))) = Ok s_all
      ∧ s ⊆ s_all.
Proof.
  split; [reflexivity |]. split; [reflexivity |].
  destruct (selection_defined sample_catalog (only_minimal [])) as [s Hs];
    [vm_compute; lia | discriminate |].
  destruct (selection_defined sample_catalog (only_all (exclude (only_minimal []))))
    as [s_all Hall]; [vm_compute; lia | discriminate |].
  exists s, s_all. split; [exact Hs |]. split; [exact Hall |].
  exact (selection_within_all_preset sample_catalog (only_minimal []) s s_all
           eq_refl eq_refl Hs Hall).
Defined.

Lemma versions_recommended_alone (o : Options) :
  recommended_alone o → versions_of o = [Arch.all; Arch.sdxl].
Proof.
  intros (Hr & Hm & Ha & H15 & Hf & Hi & _). unfold versions_of.
  rewrite Hr, Hm, Ha, H15, Hf, Hi, orb_true_r. reflexivity.
Qed.

(** X17.  Under the preset [recommended] (no other preset, no [sd15],
    [flux], [illu], [prefetch], [deprecated], no explicit checkpoint) the
    selection is defined and holds exactly: the default checkpoints tagged
    [sdxl]; the required models tagged [sdxl] or [all]; the required
    upscalers and the upscale models; the optional models of kind
    controlnet, ip-adapter or clip-vision tagged [sdxl] or [all]; the
    excluded ones left out. *)
Theorem recommended_selection (cat : Catalog) (o : Options) :
  recommended_alone o →
  ∃ s, selection cat o = Ok s
       ∧ ∀ m, m ∈ s
              ↔ ((m ∈ default_checkpoints cat ∧ arch m = Arch.sdxl)
                 ∨ (m ∈ required_models cat ∧ (arch m = Arch.all ∨ arch m = Arch.sdxl))
                 ∨ (m ∈ required_models cat ∧ kind m = ResourceKind.upscaler)
                 ∨ m ∈ upscale_models cat
                 ∨ (m ∈ optional_models cat
                    ∧ (kind m = ResourceKind.controlnet
                       ∨ kind m = ResourceKind.ip_adapter
                       ∨ kind m = ResourceKind.clip_vision)
                    ∧ (arch m = Arch.all ∨ arch m = Arch.sdxl)))
                ∧ id_string (id m) ∉ exclude o.
Proof.
  intros Halone.
  destruct (selection_defined cat o) as [s Hs].
  { unfold preset_count. destruct Halone as (-> & -> & -> & _). simpl. lia. }
  { destruct Halone as (_ & -> & _). discriminate. }
  exists s. split; [exact Hs |]. intros m.
  rewrite (elem_of_selection _ _ _ _ Hs). apply and_iff_compat_r.
  unfold picked, picked_rest. rewrite (versions_recommended_alone o Halone).
  rewrite elem_of_kinds.
  destruct Halone as (-> & -> & -> & _ & _ & _ & -> & -> & ->).
  rewrite !orb_true_r. simpl. rewrite !elem_of_cons, !elem_of_nil.
  intuition congruence.
Qed.

Lemma recommended_selection_witness :
  recommended_alone only_recommended
  ∧ ∃ s, selection full_catalog only_recommended = Ok s
         ∧ model_xl ∈ s ∧ model_cn ∈ s ∧ model_ip ∈ s ∧ model_up ∈ s
         ∧ (model_lora ∉ s) ∧ (model_old ∉ s) ∧ (model_a ∉ s) ∧ (model_sd ∉ s).
Proof.
  assert (H : recommended_alone only_recommended) by (repeat split).
  split; [exact H |].
  destruct (recommended_selection full_catalog only_recommended H) as (s & Hs & Hin).
  exists s. split; [exact Hs |]. rewrite !Hin.
  repeat (split; [apply (bool_decide_unpack _); vm_compute; exact I |]).
  apply (bool_decide_unpack _); vm_compute; exact I.
Defined.

(** ** The command line and the order of the batch *)

Lemma checkpoint_ids_elem (cat : Catalog) (m : ModelResource) :
  m ∈ default_checkpoints cat →
  identifier (id m) ∈ checkpoint_ids cat (arch m).
Proof.
  intros Hm. unfold checkpoint_ids. apply list_elem_of_fmap. exists m.
  split; [done |]. by apply list_elem_of_filter.
Qed.

Lemma cli_checkpoints_workload (cat : Catalog) (args : Args.t) (a : Arch.t) (i : string) :
  Args.checkpoints args = true → arch_flag args a = true →
  i ∈ checkpoint_ids cat a → i ∈ cli_checkpoints cat args.
Proof.
  intros Hbulk Hflag Hi. unfold cli_checkpoints. rewrite Hbulk. cbn [andb].
  destruct a; simpl in Hflag; try discriminate; rewrite Hflag;
    destruct (Args.sd15 args), (Args.sdxl args), (Args.flux args), (Args.illu args);
    try discriminate; rewrite ?elem_of_app; auto 10.
Qed.

Lemma cli_checkpoints_explicit (cat : Catalog) (args : Args.t) (l : list string)
    (i : string) :
  Args.checkpoint_list args = Some l → i ∈ l → i ∈ cli_checkpoints cat args.
Proof.
  intros Hl Hi. unfold cli_checkpoints. rewrite Hl. cbn [default from_option].
  destruct (Args.checkpoints args && Args.sd15 args),
    (Args.checkpoints args && Args.sdxl args),
    (Args.checkpoints args && Args.flux args),
    (Args.checkpoints args && Args.illu args);
    rewrite ?elem_of_app; auto 10.
Qed.

(** X18.  From the command line, a default checkpoint of the catalog is
    selected when [--checkpoints] is given together with the workload flag
    of its architecture ([--illu] standing for [illu] and [illu_v]), or
    when its identifier is given with [--checkpoint]; nothing can exclude
    it, the command line passing no exclusion list. *)
Theorem cli_selects_checkpoints (cat : Catalog) (args : Args.t)
    (s : gset ModelResource) (m : ModelResource) :
  m ∈ default_checkpoints cat →
  (Args.checkpoints args = true ∧ arch_flag args (arch m) = true)
  ∨ (∃ l, Args.checkpoint_list args = Some l ∧ identifier (id m) ∈ l) →
  selection cat (cli_options cat args) = Ok s →
  m ∈ s.
Proof.
  intros Hm Hwhy Hs. rewrite (elem_of_selection _ _ _ _ Hs).
  split; [| simpl; apply not_elem_of_nil].
  left. split; [exact Hm |]. right. simpl.
  destruct Hwhy as [[Hbulk Hflag] | (l & Hl & Hi)].
  - eapply cli_checkpoints_workload; [exact Hbulk | exact Hflag |].
    by apply checkpoint_ids_elem.
  - by eapply cli_checkpoints_explicit.
Qed.

Lemma cli_selects_checkpoints_witness :
  model_a ∈ default_checkpoints sample_catalog
  ∧ Args.checkpoints sample_args_sd15 = true
  ∧ arch_flag sample_args_sd15 (arch model_a) = true
  ∧ ∃ s, selection sample_catalog (cli_options sample_catalog sample_args_sd15) = Ok s
         ∧ model_a ∈ s.
Proof.
  assert (Hm : model_a ∈ default_checkpoints sample_catalog) by (by left).
  split; [exact Hm |]. split; [reflexivity |]. split; [reflexivity |].
  destruct (selection_defined sample_catalog
              (cli_options sample_catalog sample_args_sd15)) as [s Hs];
    [vm_compute; lia | discriminate |].
  exists s. split; [exact Hs |].
  exact (cli_selects_checkpoints sample_catalog sample_args_sd15 s model_a Hm
           (or_introl (conj eq_refl eq_refl)) Hs).
Defined.




(** ** The URL mapping on arbitrary strings *)

Lemma join_cons_char (c : ascii) (h : string) (l : list string) :
  PyStr.join "/" (String c h :: l) = String c (PyStr.join "/" (h :: l)).
Proof. destruct l; reflexivity. Qed.

Lemma join_empty_head (x : string) (l : list string) :
  PyStr.join "/" (EmptyString :: x :: l) = String "/" (PyStr.join "/" (x :: l)).
Proof. reflexivity. Qed.

(** The first pieces of a string, joined again, are a prefix of it. *)
Lemma join_take_split_prefix (s : string) :
  ∀ n, ∃ rest, s = PyStr.join "/" (take n (PyStr.split "/" s)) +:+ rest.
Proof.
  induction s as [|c s IH]; intros n.
  - exists EmptyString. by destruct n as [|[|n]].
  - cbn [PyStr.split]. destruct (Ascii.eqb c "/") eqn:Hc.
    + apply Ascii.eqb_eq in Hc as ->.
      destruct n as [|n]; [by exists (String "/" s) |].
      destruct (IH n) as [rest Hrest]. cbn [take].
      destruct (take n (PyStr.split "/" s)) as [|x l] eqn:Htake.
      * by exists (String "/" s).
      * exists rest. rewrite join_empty_head, append_cons. f_equal. exact Hrest.
    + pose proof (split_not_nil "/" s) as Hne.
      destruct (PyStr.split "/" s) as [|h t] eqn:Hsplit; [done |].
      destruct n as [|n]; [by exists (String c s) |].
      destruct (IH (S n)) as [rest Hrest]. cbn [take] in *.
      exists rest. rewrite join_cons_char, append_cons. f_equal. exact Hrest.
Qed.

Lemma url_origin_nonempty (url : string) :
  url ≠ EmptyString → url_origin url ≠ EmptyString.
Proof.
  destruct url as [|c s]; [done |]. intros _. unfold url_origin.
  cbn [PyStr.split]. pose proof (split_not_nil "/" s) as Hne.
  destruct (PyStr.split "/" s) as [|h t] eqn:Hsplit; [done |].
  destruct (Ascii.eqb c "/").
  - cbn [take PyStr.join]. discriminate.
  - cbn [take]. rewrite join_cons_char. discriminate.
Qed.

(** X20.  For every non-empty URL, well formed or not, and a non-empty
    override: the URL starts with its origin (its first three pieces
    between slashes), and the mapped URL is the override followed by the
    rest of the URL in which further occurrences of the origin are
    replaced as well; so the mapped URL always starts with the override. *)
Theorem mapped_url_starts_with_override (environ : gmap string string)
    (host url : string) :
  environ !! ENV_DOWNLOAD_URL = Some host →
  host ≠ EmptyString →
  url ≠ EmptyString →
  ∃ rest, url = url_origin url +:+ rest
          ∧ _map_url environ url
            = host +:+ PyStr.replace rest (url_origin url) host
          ∧ PyStr.startswith host (_map_url environ url) = true.
Proof.
  intros Henv Hhost Hurl.
  destruct (join_take_split_prefix url 3) as [rest Hrest]. fold (url_origin url) in Hrest.
  exists rest. split; [exact Hrest |].
  assert (Hmap : _map_url environ url
                 = host +:+ PyStr.replace rest (url_origin url) host).
  { unfold _map_url. rewrite Henv, bool_decide_eq_false_2 by done.
    rewrite Hrest at 1. apply replace_head. by apply url_origin_nonempty. }
  split; [exact Hmap |]. rewrite Hmap. apply startswith_append.
Qed.

Lemma mapped_url_starts_with_override_witness :
  env_with "http://mirror" !! ENV_DOWNLOAD_URL = Some "http://mirror"
  ∧ "http://mirror" ≠ EmptyString
  ∧ "models/a.bin" ≠ EmptyString
  ∧ PyStr.startswith "http://mirror" (_map_url (env_with "http://mirror") "models/a.bin")
    = true.
Proof.
  assert (H1 : env_with "http://mirror" !! ENV_DOWNLOAD_URL = Some "http://mirror")
    by reflexivity.
  assert (H2 : "http://mirror" ≠ EmptyString) by discriminate.
  assert (H3 : "models/a.bin" ≠ EmptyString) by discriminate.
  split; [exact H1 |]. split; [exact H2 |]. split; [exact H3 |].
  destruct (mapped_url_starts_with_override _ _ _ H1 H2 H3) as (rest & _ & _ & Hstart).
  exact Hstart.
Defined.

(** ** Directories before requests *)

(** X21.  The directories above a missing target are made before the
    request.  When a file stands where one of them should be (at the path
    of the first [k] components of the target, [k] below their number),
    the step of that file raises, nothing is requested and the file system
    is left as it is; and whenever the step returns normally or has issued
    its request, every one of these paths is a directory afterwards. *)
Theorem blocked_directory_fails_before_request (environ : gmap string string)
    (server : list string → string → Outcome Response)
    (model : ModelResource) (destination : Path) (verbose dry_run : bool)
    (file : ModelFile) (w : World) :
  fs w !! (destination </> path file) = None →
  (∀ k content,
     1 ≤ k < length (PurePath.parts (destination </> path file)) →
     fs w !! PurePath.mk (PurePath.root (destination </> path file))
               (take k (PurePath.parts (destination </> path file)))
     = Some (File content) →
     ∃ w' e,
       download_file environ server model destination verbose dry_run file w
       = (w', Raise e)
       ∧ fs w' = fs w ∧ requests w' = requests w)
  ∧ (∀ w' o,
       download_file environ server model destination verbose dry_run file w = (w', o) →
       o = Ok tt ∨ requests w' ≠ requests w →
       ∀ k, 1 ≤ k < length (PurePath.parts (destination </> path file)) →
            fs w' !! PurePath.mk (PurePath.root (destination </> path file))
                       (take k (PurePath.parts (destination </> path file)))
            = Some Dir).
Proof.
  intros Habs. split.
  - intros k content Hk Hfile. apply download_file_mkdir_blocked; [exact Habs |].
    apply existsb_exists. eexists. split.
    + apply list_elem_of_In, above_target_iff. by exists k.
    + by rewrite Hfile.
  - intros w' o Hrun Hwent k Hk.
    set (t := destination </> path file) in *.
    set (d := PurePath.mk (PurePath.root t) (take k (PurePath.parts t))).
    assert (Hd : d ∈ ancestors_and_self (PurePath.parent t)).
    { apply above_target_iff. by exists k. }
    assert (Hdt : t ≠ d).
    { intros Heq. rewrite <- Heq in Hd. by apply (target_not_made t). }
    assert (Hdp : part_path t ≠ d).
    { intros Heq. rewrite <- Heq in Hd. by apply (part_not_made t). }
    assert (Hmade : made_dirs (PurePath.parent t) (fs w) !! d = Some Dir).
    { rewrite made_dirs_lookup. by rewrite decide_True. }
    apply download_file_run in Hrun. fold t in Hrun.
    inversion Hrun as
      [ Hsome _ _ | e _ _ Hrq | | | | | | | | ];
      repeat match goal with H : fs w' = _ |- _ => rewrite H; clear H end;
      try exact Hmade.
    + rewrite Habs in Hsome. by destruct Hsome.
    + subst o. destruct Hwent as [Hok | Hne]; [discriminate | by destruct Hne].
    + by rewrite lookup_insert_ne.
    + by rewrite lookup_insert_ne.
    + by rewrite lookup_insert_ne, lookup_delete_ne.
Qed.

Lemma blocked_directory_fails_before_request_witness :
  fs world_blocked_top !! (tmp_models </> path file_a) = None
  ∧ fs world_blocked_top !! PurePath.mk true ["tmp"] = Some (File "not a directory")
  ∧ requests (download_file ∅ good_server model_a tmp_models false false file_a
                world_blocked_top).1 = []
  ∧ fs empty_world !! (tmp_models </> path file_a) = None
  ∧ (download_file ∅ good_server model_a tmp_models false false file_a empty_world).2
    = Ok tt
  ∧ fs (download_file ∅ good_server model_a tmp_models false false file_a
          empty_world).1 !! PurePath.mk true ["tmp"] = Some Dir.
Proof.
  assert (H1 : fs world_blocked_top !! (tmp_models </> path file_a) = None)
    by (vm_compute; reflexivity).
  assert (H2 : fs world_blocked_top !! PurePath.mk true ["tmp"]
               = Some (File "not a directory")) by (vm_compute; reflexivity).
  assert (H3 : fs empty_world !! (tmp_models </> path file_a) = None)
    by (vm_compute; reflexivity).
  assert (H4 : (download_file ∅ good_server model_a tmp_models false false file_a
                  empty_world).2 = Ok tt) by (vm_compute; reflexivity).
  destruct (blocked_directory_fails_before_request ∅ good_server model_a tmp_models
              false false file_a world_blocked_top H1) as [Hblocked _].
  destruct (Hblocked 1 "not a directory" ltac:(simpl; lia) H2)
    as (w' & e & Hrun & _ & Hrq).
  destruct (blocked_directory_fails_before_request ∅ good_server model_a tmp_models
              false false file_a empty_world H3) as [_ Hmade].
  pose proof (Hmade _ _ (surjective_pairing _) (or_introl H4) 1 ltac:(simpl; lia))
    as Hdir.
  split; [exact H1 |]. split; [exact H2 |].
  split; [rewrite Hrun; exact Hrq |].
  split; [exact H3 |]. split; [exact H4 | exact Hdir].
Defined.
